(** * The per-test-case evaluation pipeline of aphasia-gpt-test

    A shallow embedding of [functions/src/processTestCase.ts] and of the
    [isTestCase] guard of [shared/types], with the properties the
    specification states about them.

    JavaScript numbers are IEEE 754 doubles and are modelled by Rocq's
    primitive floats; strings by the UTF-8 bytes of a [string]; arrays by
    [list]; exceptions by an explicit result type; the asynchronous
    calls, which the source awaits one after the other, by a state-passing
    monad over a world that holds the result store and the chronological
    log of store writes, service calls and retry waits. *)

From Stdlib Require Import Floats.PrimFloat Floats.FloatOps Floats.SpecFloat.
From Stdlib Require Import Floats.FloatAxioms.
From Stdlib Require Uint63.
From Stdlib Require Import ZArith Lia Reals Lra.
From stdpp Require Import base option list strings gmap pretty.

Open Scope string_scope.

(** ** Thrown values and results *)

(** What a [throw] can carry: an [Error] object (or an instance of a
    subclass, told apart by its [name]), or any other value. *)
Inductive Exception : Type :=
| JsError (name message : string)
| NonError (value : string).

(** [Error.prototype.toString]. *)
Definition errorToString (name message : string) : string :=
  if String.eqb name "" then message
  else if String.eqb message "" then name
  else name +:+ ": " +:+ message.

Inductive Result (A : Type) : Type :=
| Ok (value : A)
| Throw (error : Exception).
Arguments Ok {A} value.
Arguments Throw {A} error.

Definition isOk {A} (r : Result A) : bool :=
  match r with Ok _ => true | Throw _ => false end.

(** ** Template expansion *)

Module Template.

(** [String.prototype.split] with a non-empty separator, scanning from the
    left: [piece] is the text since the last match, [skip] counts the
    characters of a matched separator still to be passed over. *)
Fixpoint splitFrom (separator : string) (skip : nat) (piece s : string)
  : list string :=
  match s with
  | EmptyString => [piece]
  | String c rest =>
      match skip with
      | S k => splitFrom separator k piece rest
      | O =>
          if String.prefix separator s
          then piece :: splitFrom separator (String.length separator - 1) "" rest
          else splitFrom separator 0 (piece +:+ String c "") rest
      end
  end.

(** Whether a byte continues a UTF-8 sequence, that is, is of the form
    [10xxxxxx]. *)
Definition isContinuation (c : Ascii.ascii) : bool :=
  match c with
  | Ascii.Ascii _ _ _ _ _ _ b6 b7 => b7 && negb b6
  end.

(** Whether [s] starts in the middle of a character. *)
Definition continues (s : string) : bool :=
  match s with
  | EmptyString => false
  | String c _ => isContinuation c
  end.

(** [s.split("")]: one piece per UTF-16 code unit of [s]. A character of
    the Basic Multilingual Plane is one code unit, and in the UTF-8 bytes
    of a [string] it is a byte that is not a continuation byte, followed
    by its continuation bytes: a piece starts at every byte that is not a
    continuation byte. A character outside that plane is a pair of
    surrogates, which JavaScript separates and UTF-8 cannot write down;
    it is kept as one piece here. *)
Fixpoint characters (s : string) : list string :=
  match s with
  | EmptyString => []
  | String c rest =>
      match characters rest with
      | piece :: pieces =>
          if continues rest then String c piece :: pieces
          else String c "" :: piece :: pieces
      | [] => [String c ""]
      end
  end.

(** [s.split(separator)]: an empty separator splits into single
    characters (and the empty string into no piece at all). *)
Definition split (s separator : string) : list string :=
  match separator with
  | EmptyString => characters s
  | String _ _ => splitFrom separator 0 "" s
  end.

(** [parts.join(glue)]. *)
Fixpoint join (parts : list string) (glue : string) : string :=
  match parts with
  | [] => ""
  | [p] => p
  | p :: ps => p +:+ glue +:+ join ps glue
  end.

(** One round of the loop body: [result.split(key).join(value)]. *)
Definition replaceAll (result key value : string) : string :=
  join (split result key) value.

(** [replaceMultiple]: the [replacements] object is given by its own
    enumerable properties in the order [for ... in] visits them, which for
    keys that are not array indices is the order they were written in. *)
Definition replaceMultiple (original : string)
    (replacements : list (string * string)) : string :=
  fold_left (fun result kv => replaceAll result kv.1 kv.2) replacements original.

(** Whether [key] matches at some position inside [pre] when [pre] is
    followed by [rest]. *)
Fixpoint matchesWithin (key pre rest : string) : bool :=
  match pre with
  | EmptyString => false
  | String c pre' =>
      String.prefix key (pre +:+ rest) || matchesWithin key pre' rest
  end.

End Template.

(** ** Similarity scoring *)

Module Scorer.

(** The arithmetic the scorer is written against: the operations of
    JavaScript numbers, which the program runs on doubles ([floatArith]).
    What the scorer does with lengths and indices does not depend on
    them. *)
Class Arith (T : Type) : Type := {
  zero : T;
  add : T -> T -> T;
  mul : T -> T -> T;
  div : T -> T -> T;
  sqrt : T -> T;
  ofNat : nat -> T;
  (** the value of [x + undefined] *)
  notANumber : T;
}.

#[export] Instance floatArith : Arith float := {|
  zero := 0%float;
  add := PrimFloat.add;
  mul := PrimFloat.mul;
  div := PrimFloat.div;
  sqrt := PrimFloat.sqrt;
  ofNat n := PrimFloat.of_uint63 (Uint63.of_Z (Z.of_nat n));
  notANumber := PrimFloat.nan;
|}.

Section Scoring.
Context {T : Type} `{Arith T}.

(** The reducer of [averageOfVectors]:
    [acc.map((val, i) => val + vector[i])]. *)
Definition addVector (acc vector : list T) : list T :=
  imap (fun i val =>
          match vector !! i with
          | Some x => add val x
          | None => notANumber
          end) acc.

(** [averageOfVectors]. Reading [vectors[0].length] of an empty array is
    a [TypeError]. *)
Definition averageOfVectors (vectors : list (list T)) : Result (list T) :=
  match vectors with
  | [] =>
      Throw (JsError "TypeError"
               "Cannot read properties of undefined (reading 'length')")
  | first :: _ =>
      let sums := fold_left addVector vectors (replicate (length first) zero) in
      Ok ((fun val => div val (ofNat (length vectors))) <$> sums)
  end.

(** [math.dot] of mathjs on two plain arrays: it refuses vectors of
    different or of zero length, and otherwise accumulates
    [c = a0*b0; c = c + ai*bi]. *)
Definition dot (A B : list T) : Result T :=
  if negb (Nat.eqb (length A) (length B)) then
    Throw (JsError "RangeError"
             ("Vectors must have equal length (" +:+ pretty (length A)
              +:+ " != " +:+ pretty (length B) +:+ ")"))
  else
    match A, B with
    | a0 :: A', b0 :: B' =>
        Ok (fold_left (fun c ab => add c (mul ab.1 ab.2)) (zip A' B') (mul a0 b0))
    | _, _ =>
        Throw (JsError "RangeError"
                 "Cannot calculate the dot product of empty vectors")
    end.

(** [math.norm] of mathjs on a plain array: the Euclidean norm,
    accumulated as [n = |xi|^2 + n] from [0] and followed by a square
    root. *)
Definition norm (x : list T) : T :=
  sqrt (fold_left (fun n value => add (mul value value) n) x zero).

(** [cosineSimilarity]. *)
Definition cosineSimilarity (A B : list T) : Result T :=
  match dot A B with
  | Ok dotProduct =>
      let magnitudeA := norm A in
      let magnitudeB := norm B in
      Ok (div dotProduct (mul magnitudeA magnitudeB))
  | Throw e => Throw e
  end.

End Scoring.

End Scorer.

(** ** Data model *)

(** Modelled from the spec: the [TestResultsStatus] enumeration of
    [shared/types], which is not among the sources. *)
Inductive TestResultsStatus : Type := IN_PROGRESS | DONE | ERROR.

Module Context.
Record t : Type := { tone : string; setting : string; conversationType : string }.
End Context.

Module Bio.
Record t : Type := { name : string; age : float; aboutMe : string }.
End Bio.

Module TestCase.
(** [TestCase extends Partial<DataItem>]: the identifier is optional. *)
Record t : Type := {
    id : option string;
    context : Context.t;
    bio : Bio.t;
    utterance : string;
    goodCompletions : list string;
  }.
End TestCase.

Module PromptCandidate.
(** Modelled from the spec: the [PromptCandidate] interface of
    [shared/types], which is not among the sources. *)
Record t : Type := { id : option string; prompt : string }.
End PromptCandidate.

Module PromptTestResults.
(** Modelled from the spec: the [PromptTestResults] interface of
    [shared/types], which is not among the sources; the per-test-case
    results it maps to live in the store below. *)
Record t : Type := {
    id : option string;
    llmModel : string;
    embeddingsModel : string;
    temperature : float;
    maxTokens : float;
  }.
End PromptTestResults.

(** Modelled from the spec: the record kept per (run id, test case id). *)
Record TestResultRecord : Type := {
  status : TestResultsStatus;
  errorMessage : option string;
  cosineSimilarityScore : option float;
  llmCompletions : option (list string);
}.

(** ** The world an evaluation runs in *)

Inductive Event : Type :=
| StatusWrite (runId testCaseId : string) (st : TestResultsStatus)
    (message : option string)
| ResultSave (runId testCaseId : string) (score : float)
    (completions : list string)
| CompletionCall (prompt model : string) (temperature maxTokens : float)
| EmbeddingCall (texts : list string) (model : string)
| Wait (seconds : float).

Definition isStoreWrite (e : Event) : bool :=
  match e with StatusWrite _ _ _ _ | ResultSave _ _ _ _ => true | _ => false end.

Definition isExternalCall (e : Event) : bool :=
  match e with CompletionCall _ _ _ _ | EmbeddingCall _ _ => true | _ => false end.

Fixpoint callsMade (log : list Event) : nat :=
  match log with
  | [] => 0
  | e :: log' => (if isExternalCall e then 1 else 0) + callsMade log'
  end.

Record World : Type := {
  store : gmap (string * string) TestResultRecord;
  log : list Event;
}.

Definition isCompletionCall (e : Event) : bool :=
  match e with CompletionCall _ _ _ _ => true | _ => false end.

Definition isEmbeddingCall (e : Event) : bool :=
  match e with EmbeddingCall _ _ => true | _ => false end.

Definition isWait (e : Event) : bool :=
  match e with Wait _ => true | _ => false end.

(** The status a store write leaves under its key. *)
Definition statusWritten (e : Event)
  : option (string * string * TestResultsStatus) :=
  match e with
  | StatusWrite runId testCaseId st _ => Some (runId, testCaseId, st)
  | ResultSave runId testCaseId _ _ => Some (runId, testCaseId, DONE)
  | _ => None
  end.

Definition isResultSave (e : Event) : bool :=
  match e with ResultSave _ _ _ _ => true | _ => false end.

(** The record a store write leaves under its key. *)
Definition persisted (e : Event) : option TestResultRecord :=
  match e with
  | StatusWrite _ _ st message =>
      Some {| status := st; errorMessage := message;
              cosineSimilarityScore := None; llmCompletions := None |}
  | ResultSave _ _ score completions =>
      Some {| status := DONE; errorMessage := None;
              cosineSimilarityScore := Some score;
              llmCompletions := Some completions |}
  | _ => None
  end.

(** The events of the completion stage: requests to the completion
    service and the waits between them. *)
Definition completionPhase (e : Event) : Prop :=
  isCompletionCall e || isWait e = true.

(** The events of the embedding stage. *)
Definition embeddingPhase (e : Event) : Prop :=
  isEmbeddingCall e || isWait e = true.

(** The log of an operation attempted [failures + 1] times with a wait of
    [delaySeconds] after each failed attempt but the last. *)
Fixpoint attempts (call : Event) (delaySeconds : float) (failures : nat)
  : list Event :=
  match failures with
  | O => [call]
  | S n => call :: Wait delaySeconds :: attempts call delaySeconds n
  end.

Definition record (e : Event) (w : World) : World :=
  {| store := store w; log := log w ++ [e] |}.

(** What the pipeline is handed from outside: the two services, whose
    answer to a request may depend on how many external calls were made
    before it (so that a service can fail now and succeed later), and the
    runtime's [Number.prototype.toString]. *)
Record Environment : Type := {
  getGptCompletion : nat -> string -> string -> float -> float -> Result (list string);
  embedTexts : nat -> list string -> string -> Result (list (list float));
  numberToString : float -> string;
}.

(** ** Sequential effectful code *)

Definition M (A : Type) : Type := World -> Result A * World.

Definition ret {A} (a : A) : M A := fun w => (Ok a, w).
Definition throw {A} (e : Exception) : M A := fun w => (Throw e, w).
Definition lift {A} (r : Result A) : M A := fun w => (r, w).

Definition bind {A B} (m : M A) (k : A -> M B) : M B :=
  fun w =>
    match m w with
    | (Ok a, w') => k a w'
    | (Throw e, w') => (Throw e, w')
    end.

(** [try { body } catch (error) { handler }]: what [body] did to the
    world before it threw stays done. *)
Definition tryCatch {A} (body : M A) (handler : Exception -> M A) : M A :=
  fun w =>
    match body w with
    | (Ok a, w') => (Ok a, w')
    | (Throw e, w') => handler e w'
    end.

Declare Scope eval_scope.
Delimit Scope eval_scope with eval.
Notation "x <- m ;; k" := (bind m (fun x => k))
  (at level 100, m at next level, right associativity) : eval_scope.
Notation "m ;;; k" := (bind m (fun _ => k))
  (at level 100, right associativity) : eval_scope.

(** ** The result store *)

Module TestResultsDatabaseService.

(** Modelled from the spec: [updateTestCaseResultStatus] of
    [data/TestResultsDatabaseService], which is not among the sources.
    It persists the status (with the message, if any) under the key and
    acknowledges; a score or completions are present only on a [DONE]
    record. *)
Definition updateTestCaseResultStatus (runId testCaseId : string)
    (st : TestResultsStatus) (message : option string) : M unit :=
  fun w =>
    (Ok tt,
     {| store := <[(runId, testCaseId) :=
                    {| status := st; errorMessage := message;
                       cosineSimilarityScore := None; llmCompletions := None |}]>
                  (store w);
        log := log w ++ [StatusWrite runId testCaseId st message] |}).

(** Modelled from the spec: [saveTestCaseResult] of
    [data/TestResultsDatabaseService], which is not among the sources.
    It persists the [DONE] record with the score and the completions and
    acknowledges. *)
Definition saveTestCaseResult (runId testCaseId : string) (score : float)
    (completions : list string) : M unit :=
  fun w =>
    (Ok tt,
     {| store := <[(runId, testCaseId) :=
                    {| status := DONE; errorMessage := None;
                       cosineSimilarityScore := Some score;
                       llmCompletions := Some completions |}]>
                  (store w);
        log := log w ++ [ResultSave runId testCaseId score completions] |}).

End TestResultsDatabaseService.

(** ** Bounded retry *)

Module HttpUtils.

Definition sleep (seconds : float) : M unit :=
  fun w => (Ok tt, record (Wait seconds) w).

(** The attempts of [retryOnFailure] from one on: the operation is
    invoked; a result is returned at once; an error is re-thrown when no
    attempt remains, and otherwise followed by the wait and the next
    attempt. *)
Fixpoint retryLoop {A} (operation : M A) (remaining : nat)
    (delaySeconds : float) : M A :=
  fun w =>
    match operation w with
    | (Ok a, w') => (Ok a, w')
    | (Throw e, w') =>
        match remaining with
        | O => (Throw e, w')
        | S remaining' =>
            retryLoop operation remaining' delaySeconds
              (sleep delaySeconds w').2
        end
    end.

(** Modelled from the spec: [retryOnFailure] of [httpUtils], which is not
    among the sources ([runWithRetry] in the specification): at most
    [maxAttempts] invocations, a fixed wait between two of them, the last
    error propagated unchanged. *)
Definition retryOnFailure {A} (operation : M A) (maxAttempts : nat)
    (delaySeconds : float) : M A :=
  retryLoop operation (maxAttempts - 1) delaySeconds.

End HttpUtils.

(** ** The orchestrator *)

Module Orchestrator.
Import Scorer TestResultsDatabaseService HttpUtils.
Local Open Scope eval_scope.

Definition OPENAI_MAX_RETRY : nat := 4.
Definition OPENAI_WAIT_TIME_SECONDS : float := 5.
Definition HUGGINGFACE_MAX_RETRY : nat := 4.
Definition HUGGINGFACE_WAIT_TIME_SECONDS : float := 5.

(** [!x] on an optional string: [undefined] and the empty string are
    both falsy. The identifier, when there is one to use as a key. *)
Definition presentId (x : option string) : option string :=
  match x with
  | Some s => if String.eqb s "" then None else Some s
  | None => None
  end.

(** One request to an outside service: the answer is the service's for
    the number of calls made so far, and the call is logged. *)
Definition request {A} (answer : nat -> Result A) (call : Event) : M A :=
  fun w => (answer (callsMade (log w)), record call w).

Section WithEnvironment.
Variable env : Environment.

(** [openAIService.getGptCompletion(...)], one request. *)
Definition requestCompletion (prompt model : string)
    (temperature maxTokens : float) : M (list string) :=
  request
    (fun n => getGptCompletion env n prompt model temperature maxTokens)
    (CompletionCall prompt model temperature maxTokens).

(** [huggingFaceService.embedTexts(...)], one request. *)
Definition requestEmbeddings (texts : list string) (model : string)
  : M (list (list float)) :=
  request (fun n => embedTexts env n texts model) (EmbeddingCall texts model).

(** The prompt handed to the completion service. *)
Definition formatPrompt (prompt : PromptCandidate.t) (testCase : TestCase.t)
  : string :=
  Template.replaceMultiple (PromptCandidate.prompt prompt)
    [ ("{name}", Bio.name (TestCase.bio testCase));
      ("{age}", numberToString env (Bio.age (TestCase.bio testCase)));
      ("{about_me}", Bio.aboutMe (TestCase.bio testCase));
      ("{conversation_type}",
        Context.conversationType (TestCase.context testCase));
      ("{setting}", Context.setting (TestCase.context testCase));
      ("{tone}", Context.tone (TestCase.context testCase));
      ("{utterance}", TestCase.utterance testCase) ].

(** The pure tail of [runPromptTestCase]: both averages, then the score. *)
Definition score (gptEmbeddings goodEmbeddings : list (list float))
  : Result float :=
  match averageOfVectors gptEmbeddings with
  | Ok avgGptEmbedding =>
      match averageOfVectors goodEmbeddings with
      | Ok avgGoodEmbedding => cosineSimilarity avgGptEmbedding avgGoodEmbedding
      | Throw e => Throw e
      end
  | Throw e => Throw e
  end.

Definition runPromptTestCase (prompt : PromptCandidate.t)
    (testCase : TestCase.t) (openaiModel embeddingsModelName : string)
    (temperature maxTokens : float) : M (list string * float) :=
  let formattedPrompt := formatPrompt prompt testCase in
  gptCompletions <-
    retryOnFailure
      (requestCompletion formattedPrompt openaiModel temperature maxTokens)
      OPENAI_MAX_RETRY OPENAI_WAIT_TIME_SECONDS ;;
  gptEmbeddings <-
    retryOnFailure (requestEmbeddings gptCompletions embeddingsModelName)
      HUGGINGFACE_MAX_RETRY HUGGINGFACE_WAIT_TIME_SECONDS ;;
  goodEmbeddings <-
    retryOnFailure
      (requestEmbeddings (TestCase.goodCompletions testCase) embeddingsModelName)
      HUGGINGFACE_MAX_RETRY HUGGINGFACE_WAIT_TIME_SECONDS ;;
  cosineSimilarityScore <- lift (score gptEmbeddings goodEmbeddings) ;;
  ret (gptCompletions, cosineSimilarityScore).

Definition newline : string := String (Ascii.ascii_of_nat 10) "".

Definition outOfRange (cosineSimilarityScore : float) : bool :=
  (1 <? cosineSimilarityScore)%float || (cosineSimilarityScore <? -1)%float.

Definition outOfRangeError (cosineSimilarityScore : float) : Exception :=
  JsError "Error"
    ("Cosine similarity score is out of range" +:+ newline
     +:+ "            [-1, 1]: " +:+ numberToString env cosineSimilarityScore).

(** [error instanceof Error ? error.toString() : "unknown error"]. *)
Definition describe (error : Exception) : string :=
  match error with
  | JsError name message => errorToString name message
  | NonError _ => "unknown error"
  end.

(** [processTestCase]. The logger calls leave no trace in the world. *)
Definition processTestCase (prompt : PromptCandidate.t) (testCase : TestCase.t)
    (promptTestResults : PromptTestResults.t) : M unit :=
  match presentId (TestCase.id testCase) with
  | None => throw (JsError "Error" "Test case id is missing")
  | Some testCaseId =>
      match presentId (PromptTestResults.id promptTestResults) with
      | None => throw (JsError "Error" "Prompt test results id is missing")
      | Some runId =>
          updateTestCaseResultStatus runId testCaseId IN_PROGRESS None ;;;
          tryCatch
            (result <-
               runPromptTestCase prompt testCase
                 (PromptTestResults.llmModel promptTestResults)
                 (PromptTestResults.embeddingsModel promptTestResults)
                 (PromptTestResults.temperature promptTestResults)
                 (PromptTestResults.maxTokens promptTestResults) ;;
             if outOfRange result.2 then throw (outOfRangeError result.2)
             else saveTestCaseResult runId testCaseId result.2 result.1)
            (fun error =>
               updateTestCaseResultStatus runId testCaseId ERROR
                 (Some (describe error)))
      end
  end.

(** The world once [IN_PROGRESS] is written, and the run of
    [runPromptTestCase] from there. *)
Definition started (runId testCaseId : string) (w : World) : World :=
  (updateTestCaseResultStatus runId testCaseId IN_PROGRESS None w).2.

Definition attempt (prompt : PromptCandidate.t) (testCase : TestCase.t)
    (promptTestResults : PromptTestResults.t) (runId testCaseId : string)
    (w : World) : Result (list string * float) * World :=
  runPromptTestCase prompt testCase
    (PromptTestResults.llmModel promptTestResults)
    (PromptTestResults.embeddingsModel promptTestResults)
    (PromptTestResults.temperature promptTestResults)
    (PromptTestResults.maxTokens promptTestResults)
    (started runId testCaseId w).

(** The store write that ends an evaluation whose pipeline ended in [r]. *)
Definition terminalWrite (runId testCaseId : string)
    (r : Result (list string * float)) : Event :=
  match r with
  | Ok (completions, s) =>
      if outOfRange s
      then StatusWrite runId testCaseId ERROR
             (Some (describe (outOfRangeError s)))
      else ResultSave runId testCaseId s completions
  | Throw e => StatusWrite runId testCaseId ERROR (Some (describe e))
  end.

End WithEnvironment.

End Orchestrator.

(** ** The [isTestCase] guard *)

Module Js.

(** The values the guard can be handed ([testCase: any]). An object is
    given by its own properties, each name once. *)
#[local] Unset Elimination Schemes.
Inductive Value : Type :=
| Undefined
| Null
| Boolean (b : bool)
| Number (x : float)
| Str (s : string)
| Array (items : list Value)
| Object (properties : list (string * Value)).
#[local] Set Elimination Schemes.

(** [ToBoolean]. *)
Definition toBoolean (v : Value) : bool :=
  match v with
  | Undefined | Null => false
  | Boolean b => b
  | Number x => negb ((x =? 0)%float || PrimFloat.is_nan x)
  | Str s => negb (String.eqb s "")
  | Array _ | Object _ => true
  end.

Fixpoint property (properties : list (string * Value)) (key : string) : Value :=
  match properties with
  | [] => Undefined
  | (k, v) :: rest => if String.eqb k key then v else property rest key
  end.

(** [v.key] for the property names the guard reads, none of which is a
    built-in property of a string, number, boolean or array: reading
    from [undefined] or [null] throws, an object yields the own property
    or [undefined], anything else [undefined]. *)
Definition get (v : Value) (key : string) : Result Value :=
  match v with
  | Undefined =>
      Throw (JsError "TypeError"
               ("Cannot read properties of undefined (reading '" +:+ key +:+ "')"))
  | Null =>
      Throw (JsError "TypeError"
               ("Cannot read properties of null (reading '" +:+ key +:+ "')"))
  | Object properties => Ok (property properties key)
  | _ => Ok Undefined
  end.

(** [v.key1.key2]. *)
Definition get2 (v : Value) (key1 key2 : string) : Result Value :=
  match get v key1 with
  | Ok inner => get inner key2
  | Throw e => Throw e
  end.

(** [left && right]: the left operand when it is falsy, else the right
    one, which is only then evaluated. *)
Definition and (left right : Result Value) : Result Value :=
  match left with
  | Ok v => if toBoolean v then right else Ok v
  | Throw e => Throw e
  end.

End Js.

Module Types.
Import Js.

Notation "a && b" := (Js.and a b) : eval_scope.
Local Open Scope eval_scope.

(** [isTestCase]. *)
Definition isTestCase (testCase : Value) : Result Value :=
  Ok testCase &&
  get testCase "context" &&
  get2 testCase "context" "tone" &&
  get2 testCase "context" "setting" &&
  get2 testCase "context" "conversationType" &&
  get testCase "bio" &&
  get2 testCase "bio" "name" &&
  get2 testCase "bio" "age" &&
  get2 testCase "bio" "aboutMe" &&
  get testCase "utterance" &&
  get testCase "goodCompletions".

(** A [TestCase] as the object the guard sees. *)
Definition toValue (testCase : TestCase.t) : Value :=
  Object
    ((match TestCase.id testCase with
      | Some id => [("id", Str id)]
      | None => []
      end) ++
     [ ("context",
         Object
           [ ("tone", Str (Context.tone (TestCase.context testCase)));
             ("setting", Str (Context.setting (TestCase.context testCase)));
             ("conversationType",
               Str (Context.conversationType (TestCase.context testCase))) ]);
       ("bio",
         Object
           [ ("name", Str (Bio.name (TestCase.bio testCase)));
             ("age", Number (Bio.age (TestCase.bio testCase)));
             ("aboutMe", Str (Bio.aboutMe (TestCase.bio testCase))) ]);
       ("utterance", Str (TestCase.utterance testCase));
       ("goodCompletions", Array (Str <$> TestCase.goodCompletions testCase)) ]).

End Types.

(** ** Sample inputs *)

Module Sample.
Import Orchestrator.

(** A rendering of numbers that agrees with [Number.prototype.toString]
    on [NaN], the infinities, the zeros and the integers below [10^21];
    other values, which the samples do not use, are shown as a binary
    fraction. *)
Definition showNumber (x : float) : string :=
  match Prim2SF x with
  | S754_nan => "NaN"
  | S754_infinity false => "Infinity"
  | S754_infinity true => "-Infinity"
  | S754_zero _ => "0"
  | S754_finite s m e =>
      (if s then "-" else "") +:+
      (if (0 <=? e)%Z then pretty (Z.pos m * 2 ^ e)%Z
       else if (Z.pos m mod 2 ^ (- e) =? 0)%Z
            then pretty (Z.pos m / 2 ^ (- e))%Z
            else pretty (Z.pos m) +:+ "/2^" +:+ pretty (- e)%Z)
  end.

Definition alice : TestCase.t := {|
  TestCase.id := Some "tc1";
  TestCase.context :=
    {| Context.tone := "calm"; Context.setting := "home";
       Context.conversationType := "chat" |};
  TestCase.bio :=
    {| Bio.name := "Alice"; Bio.age := 5; Bio.aboutMe := "likes tea" |};
  TestCase.utterance := "water";
  TestCase.goodCompletions := ["I want water"];
|}.

Definition withId (id : option string) (testCase : TestCase.t) : TestCase.t := {|
  TestCase.id := id;
  TestCase.context := TestCase.context testCase;
  TestCase.bio := TestCase.bio testCase;
  TestCase.utterance := TestCase.utterance testCase;
  TestCase.goodCompletions := TestCase.goodCompletions testCase;
|}.

Definition withAge (age : float) (testCase : TestCase.t) : TestCase.t := {|
  TestCase.id := TestCase.id testCase;
  TestCase.context := TestCase.context testCase;
  TestCase.bio :=
    {| Bio.name := Bio.name (TestCase.bio testCase); Bio.age := age;
       Bio.aboutMe := Bio.aboutMe (TestCase.bio testCase) |};
  TestCase.utterance := TestCase.utterance testCase;
  TestCase.goodCompletions := TestCase.goodCompletions testCase;
|}.

Definition withGoodCompletions (good : list string) (testCase : TestCase.t)
  : TestCase.t := {|
  TestCase.id := TestCase.id testCase;
  TestCase.context := TestCase.context testCase;
  TestCase.bio := TestCase.bio testCase;
  TestCase.utterance := TestCase.utterance testCase;
  TestCase.goodCompletions := good;
|}.

Definition greeting : PromptCandidate.t := {|
  PromptCandidate.id := Some "p1";
  PromptCandidate.prompt := "Hi {name}, age {age}: {utterance}";
|}.

Definition run1 : PromptTestResults.t := {|
  PromptTestResults.id := Some "run1";
  PromptTestResults.llmModel := "gpt";
  PromptTestResults.embeddingsModel := "emb";
  PromptTestResults.temperature := 1;
  PromptTestResults.maxTokens := 50;
|}.

Definition emptyWorld : World := {| store := ∅; log := [] |}.

(** Both services answer at once; every text is embedded as [vector]. *)
Definition steady (vector : list float) : Environment := {|
  getGptCompletion _ _ _ _ _ := Ok ["I need water"];
  embedTexts _ texts _ := Ok ((fun _ => vector) <$> texts);
  numberToString := showNumber;
|}.

(** The services fail on every call whose number is below [n] or, from
    [n] on, at or above [m], and answer in between. *)
Definition flaky (n m : nat) : Environment := {|
  getGptCompletion k _ _ _ _ :=
    if ((k <? n) || (m <=? k))%nat then Throw (JsError "APIError" "429")
    else Ok ["I need water"];
  embedTexts k texts _ :=
    if ((k <? n) || (m <=? k))%nat then Throw (NonError "503")
    else Ok ((fun _ => [3; 4]%float) <$> texts);
  numberToString := showNumber;
|}.

End Sample.

(** ** Vocabulary of the further properties *)

Module Further.
Import Template Js.

(** The tokens [runPromptTestCase] replaces, in its order. *)
Definition promptTokens : list string :=
  [ "{name}"; "{age}"; "{about_me}"; "{conversation_type}"; "{setting}";
    "{tone}"; "{utterance}" ].

(** No key of [replacements] is empty or occurs in [s]. *)
Definition untouchedBy (replacements : list (string * string)) (s : string)
  : bool :=
  forallb
    (fun kv => negb (String.eqb kv.1 "") && negb (matchesWithin kv.1 s ""))
    replacements.


(** The waits in a log. *)
Fixpoint waitsMade (log : list Event) : nat :=
  match log with
  | [] => 0
  | e :: log' => (if isWait e then 1 else 0) + waitsMade log'
  end.

(** A wait, if it is one, is of five seconds. *)
Definition waitsFive (e : Event) : Prop := isWait e = true -> e = Wait 5.

(** [v.k1.k2...], reading left to right. *)
Fixpoint readPath (v : Value) (path : list string) : Result Value :=
  match path with
  | [] => Ok v
  | key :: rest =>
      match get v key with
      | Ok inner => readPath inner rest
      | Throw e => Throw e
      end
  end.

(** Whether the value at [path] can be read and is truthy. *)
Definition truthyAt (v : Value) (path : list string) : bool :=
  match readPath v path with
  | Ok x => toBoolean x
  | Throw _ => false
  end.

(** The operands of the guard's chain, as paths from the test case. *)
Definition guardReads : list (list string) :=
  [ []; ["context"]; ["context"; "tone"]; ["context"; "setting"];
    ["context"; "conversationType"]; ["bio"]; ["bio"; "name"];
    ["bio"; "age"]; ["bio"; "aboutMe"]; ["utterance"]; ["goodCompletions"] ].

(** [c.key] for a truthy [c]. *)
Definition field (c : Value) (key : string) : Value :=
  match c with
  | Object properties => property properties key
  | _ => Undefined
  end.

Definition isObject (v : Value) : bool :=
  match v with Object _ => true | _ => false end.

(** The completion service returns no completion; every text is embedded
    as [[3, 4]]. *)
Definition mute : Environment := {|
  getGptCompletion _ _ _ _ _ := Ok [];
  embedTexts _ texts _ := Ok ((fun _ => [3; 4]%float) <$> texts);
  numberToString := Sample.showNumber;
|}.

(** The embedding service answers its first request with vectors of two
    components and the later ones with vectors of one. *)
Definition uneven : Environment := {|
  getGptCompletion _ _ _ _ _ := Ok ["I need water"];
  embedTexts k texts _ :=
    Ok ((fun _ => if (k =? 1)%nat then [1; 2]%float else [1]%float) <$> texts);
  numberToString := Sample.showNumber;
|}.

End Further.

(** ** Doubles and the real numbers they stand for *)

Module Doubles.
Import Scorer.

(** The number [norm] takes the square root of: the squares of the
    components, accumulated as [norm] accumulates them. *)
Definition squaredNorm (x : list float) : float :=
  fold_left (fun n value => add (mul value value) n) x zero.

(** [1e-9], the tolerance the specification names. *)
Definition tolerance : float := 0x1.12e0be826d695p-30%float.

(** [r] is within [tolerance] of [1], and [-r] of [-1]. *)
Definition closeToOne (r : float) : bool :=
  (abs (r - 1) <=? tolerance)%float && (abs (- r + 1) <=? tolerance)%float.

(** A double that is not negative: [+0], [+Infinity], [NaN] or a
    positive finite one. *)
Definition signless (x : spec_float) : bool :=
  match x with
  | S754_zero s | S754_infinity s | S754_finite s _ _ => negb s
  | S754_nan => true
  end.

(** The real number [2^e]. *)
Definition bpow (e : Z) : R := powerRZ 2 e.

(** The real number the positive finite double of mantissa [m] and
    exponent [e] stands for. *)
Definition value (m : positive) (e : Z) : R := (IZR (Z.pos m) * bpow e)%R.

(** A positive finite double with a full mantissa of 53 bits. *)
Definition normal (m : positive) (e : Z) : Prop :=
  (2 ^ 52 <= Z.pos m < 2 ^ 53)%Z /\ (-1074 <= e <= 971)%Z.

(** [v] is [x] up to a relative error of [1 / k]. *)
Definition within (k v x : R) : Prop :=
  (k * (v - x) <= x)%R /\ (k * (x - v) <= x)%R.

(** The doubles next to [1]: at most 16 steps above it or 32 below. *)
Definition nearOne (m : positive) (e : Z) : Prop :=
  (e = -52 /\ 2 ^ 52 <= Z.pos m <= 2 ^ 52 + 16)%Z \/
  (e = -53 /\ 2 ^ 53 - 32 <= Z.pos m < 2 ^ 53)%Z.

(** [P 0 && ... && P (n - 1)]. *)
Fixpoint allBelow (n : nat) (P : Z -> bool) : bool :=
  match n with
  | O => true
  | S n' => P (Z.of_nat n') && allBelow n' P
  end.

End Doubles.

(** * Properties *)

Import Template Scorer.
Open Scope list_scope.

(** ** Template expansion *)

Lemma app_cons (c : Ascii.ascii) (s t : string) :
  String c s +:+ t = String c (s +:+ t).
Proof. reflexivity. Qed.

Lemma app_empty_r (s : string) : s +:+ "" = s.
Proof.
  induction s as [|c s IH]; [reflexivity|]. by rewrite app_cons, IH.
Qed.

Lemma app_assoc' (a b c : string) : (a +:+ b) +:+ c = a +:+ (b +:+ c).
Proof.
  induction a as [|x a IH]; [reflexivity|]. by rewrite !app_cons, IH.
Qed.

Lemma prefix_app (key rest : string) : String.prefix key (key +:+ rest) = true.
Proof.
  induction key as [|c key IH].
  - by destruct rest.
  - rewrite app_cons. simpl.
    destruct (Ascii.ascii_dec c c) as [_|ne]; [exact IH | by destruct ne].
Qed.

Lemma splitFrom_skip (key piece skipped rest : string) :
  splitFrom key (String.length skipped) piece (skipped +:+ rest)
  = splitFrom key 0 piece rest.
Proof.
  induction skipped as [|c skipped IH]; [reflexivity|].
  rewrite app_cons. exact IH.
Qed.

Lemma splitFrom_no_match (key pre rest : string) :
  matchesWithin key pre rest = false ->
  forall piece,
    splitFrom key 0 piece (pre +:+ rest) = splitFrom key 0 (piece +:+ pre) rest.
Proof.
  induction pre as [|c pre IH]; intros Hfree piece.
  - change ("" +:+ rest) with rest. by rewrite app_empty_r.
  - cbn [matchesWithin] in Hfree.
    apply orb_false_elim in Hfree as [Hhere Hlater].
    rewrite app_cons. cbn [splitFrom]. rewrite <- app_cons, Hhere.
    rewrite IH by exact Hlater. by rewrite app_assoc'.
Qed.

Lemma splitFrom_nonempty (key : string) (s : string) :
  forall skip piece, splitFrom key skip piece s <> [].
Proof.
  induction s as [|c s IH]; intros skip piece; cbn [splitFrom]; [done|].
  destruct skip; [|apply IH].
  destruct (String.prefix key (String c s)); [done | apply IH].
Qed.

Lemma join_cons (p : string) (ps : list string) (glue : string) :
  ps <> [] -> join (p :: ps) glue = p +:+ glue +:+ join ps glue.
Proof. by destruct ps. Qed.

Lemma replaceAll_absent (key value s : string) :
  key <> "" -> matchesWithin key s "" = false -> replaceAll s key value = s.
Proof.
  intros Hkey Hfree. unfold replaceAll, split.
  destruct key as [|k key]; [done|].
  rewrite <- (app_empty_r s) at 1.
  rewrite splitFrom_no_match by exact Hfree.
  reflexivity.
Qed.

Lemma replaceAll_first (key value pre post : string) :
  key <> "" -> matchesWithin key pre (key +:+ post) = false ->
  replaceAll (pre +:+ key +:+ post) key value
  = pre +:+ value +:+ replaceAll post key value.
Proof.
  intros Hkey Hfree. unfold replaceAll, split.
  destruct key as [|k key]; [done|].
  rewrite splitFrom_no_match by exact Hfree.
  rewrite app_cons. cbn [splitFrom]. rewrite <- app_cons.
  rewrite prefix_app.
  replace (String.length (String k key) - 1) with (String.length key)
    by (simpl; lia).
  rewrite splitFrom_skip.
  rewrite join_cons by apply splitFrom_nonempty.
  reflexivity.
Qed.


Lemma replaceMultiple_cons (original key value : string)
    (rest : list (string * string)) :
  replaceMultiple original ((key, value) :: rest)
  = replaceMultiple (replaceAll original key value) rest.
Proof. reflexivity. Qed.

(** C5: [replaceMultiple] takes the tokens one after the other, in the
    order the caller wrote them, each on the string the previous ones
    left; one round replaces every literal occurrence of its token, found
    from the left, by the value, and leaves a string without the token
    alone. The specification's example expands to ["Hi Alice, age 5"], and
    a token brought in by an earlier value is replaced when its own turn
    comes, in the template expander alone as in the prompt of
    [runPromptTestCase], whose order is name, age, about_me,
    conversation_type, setting, tone, utterance. *)
Theorem replaceMultiple_sequential :
  (forall original, replaceMultiple original [] = original) /\
  (forall original key value rest,
     replaceMultiple original ((key, value) :: rest)
     = replaceMultiple (replaceAll original key value) rest) /\
  (forall key value pre post,
     key <> "" -> matchesWithin key pre (key +:+ post) = false ->
     replaceAll (pre +:+ key +:+ post) key value
     = pre +:+ value +:+ replaceAll post key value) /\
  (forall key value s,
     key <> "" -> matchesWithin key s "" = false ->
     replaceAll s key value = s) /\
  replaceMultiple "Hi {name}, age {age}" [("{name}", "Alice"); ("{age}", "5")]
  = "Hi Alice, age 5" /\
  (forall value,
     replaceMultiple "{name}" [("{name}", "{age}"); ("{age}", value)] = value) /\
  (forall env utterance,
     Orchestrator.formatPrompt env
       {| PromptCandidate.id := None; PromptCandidate.prompt := "{name}" |}
       {| TestCase.id := None;
          TestCase.context := TestCase.context Sample.alice;
          TestCase.bio :=
            {| Bio.name := "{utterance}"; Bio.age := 5; Bio.aboutMe := "" |};
          TestCase.utterance := utterance;
          TestCase.goodCompletions := [] |}
     = utterance).
Proof.
  split; [reflexivity|].
  split; [intros; apply replaceMultiple_cons|].
  split; [intros; by apply replaceAll_first|].
  split; [intros; by apply replaceAll_absent|].
  split; [reflexivity|].
  split.
  - intros value. unfold replaceMultiple. cbn [fold_left fst snd].
    change (replaceAll "{name}" "{name}" "{age}") with "{age}".
    change (replaceAll "{age}" "{age}" value) with ("" +:+ value +:+ "").
    change ("" +:+ value +:+ "") with (value +:+ ""). apply app_empty_r.
  - intros env utterance. unfold Orchestrator.formatPrompt, replaceMultiple.
    cbn [fold_left fst snd PromptCandidate.prompt TestCase.bio Bio.name
         Bio.age Bio.aboutMe TestCase.context TestCase.utterance
         Context.conversationType Context.setting Context.tone Sample.alice].
    change (replaceAll "{name}" "{name}" "{utterance}") with "{utterance}".
    rewrite (replaceAll_absent "{age}" (numberToString env 5) "{utterance}")
      by done.
    rewrite (replaceAll_absent "{about_me}" "" "{utterance}") by done.
    rewrite (replaceAll_absent "{conversation_type}" "chat" "{utterance}")
      by done.
    rewrite (replaceAll_absent "{setting}" "home" "{utterance}") by done.
    rewrite (replaceAll_absent "{tone}" "calm" "{utterance}") by done.
    change (replaceAll "{utterance}" "{utterance}" utterance)
      with ("" +:+ utterance +:+ "").
    change ("" +:+ utterance +:+ "") with (utterance +:+ ""). apply app_empty_r.
Qed.

Lemma replaceMultiple_sequential_witness :
  replaceAll ("a" +:+ "{x}" +:+ "b{x}") "{x}" "1"
  = "a" +:+ "1" +:+ replaceAll "b{x}" "{x}" "1"
  /\ replaceAll "no token here" "{x}" "1" = "no token here".
Proof.
  destruct replaceMultiple_sequential as (_ & _ & Hfirst & Habsent & _).
  split.
  - apply Hfirst; [discriminate | reflexivity].
  - apply Habsent; [discriminate | reflexivity].
Defined.

(** ** Similarity scoring *)

Section ScoringFacts.
Context {T : Type} `{Arith T}.

(** *** The running sums, index by index *)

Lemma addVector_length (acc vector : list T) :
  length (addVector acc vector) = length acc.
Proof. apply length_imap. Qed.

Lemma addVector_lookup (acc vector : list T) (i : nat) (a x : T) :
  acc !! i = Some a -> vector !! i = Some x ->
  addVector acc vector !! i = Some (add a x).
Proof.
  intros Ha Hx. unfold addVector.
  rewrite list_lookup_imap, Ha. simpl. by rewrite Hx.
Qed.

Lemma fold_addVector_length (vectors : list (list T)) :
  forall acc, length (fold_left addVector vectors acc) = length acc.
Proof.
  induction vectors as [|v vectors IH]; intros acc; simpl; [reflexivity|].
  by rewrite IH, addVector_length.
Qed.

Lemma fold_addVector_lookup (i : nat) (vectors : list (list T)) (col : list T) :
  Forall2 (fun v x => v !! i = Some x) vectors col ->
  forall acc a, acc !! i = Some a ->
    fold_left addVector vectors acc !! i = Some (fold_left add col a).
Proof.
  induction 1 as [|v x vectors col Hvx _ IH]; intros acc a Ha; simpl.
  - exact Ha.
  - apply IH. by apply addVector_lookup.
Qed.

Lemma dot_formula (A B : list T) (a0 b0 : T) :
  length A = length B ->
  dot (a0 :: A) (b0 :: B)
  = Ok (fold_left (fun c ab => add c (mul ab.1 ab.2)) (zip A B) (mul a0 b0)).
Proof.
  intros Hlen. unfold dot. simpl length. rewrite Hlen, Nat.eqb_refl.
  reflexivity.
Qed.

Lemma averageOfVectors_columns (vectors : list (list T)) (n : nat) :
  vectors <> [] -> Forall (fun v => length v = n) vectors ->
  exists average,
    averageOfVectors vectors = Ok average /\ length average = n /\
    forall i col,
      Forall2 (fun v x => v !! i = Some x) vectors col ->
      average !! i
      = Some (div (fold_left add col zero) (ofNat (length vectors))).
Proof.
  destruct vectors as [|first rest]; [done|]. intros _ Hlen.
  pose proof (Forall_inv Hlen) as Hfirst. simpl in Hfirst.
  eexists. split; [reflexivity|]. split.
  - by rewrite length_fmap, fold_addVector_length, length_replicate.
  - intros i col Hcol. rewrite list_lookup_fmap.
    rewrite (fold_addVector_lookup i _ col Hcol _ zero); [reflexivity|].
    apply lookup_replicate_2.
    inversion Hcol as [|? x ? ? Hx _]; subst.
    by apply lookup_lt_Some in Hx.
Qed.

Lemma averageOfVectors_single (v : list T) :
  Forall (fun x => div (add zero x) (ofNat 1) = x) v ->
  averageOfVectors [v] = Ok v.
Proof.
  intros Hfix.
  destruct (averageOfVectors_columns [v] (length v)) as (avg & -> & Hlen & Hcol);
    [done | by repeat constructor |].
  f_equal. apply list_eq. intros i.
  destruct (v !! i) as [x|] eqn:Hx.
  - rewrite (Hcol i [x]) by (by repeat constructor). simpl. f_equal.
    by apply (Forall_lookup_1 _ _ _ _ Hfix Hx).
  - apply lookup_ge_None. rewrite Hlen. by apply lookup_ge_None.
Qed.

End ScoringFacts.

(** *** Doubles *)

Import Doubles.

(** The one operation the average of a single vector applies to each
    component: [(0 + x) / 1]. On doubles it gives [x] back, but for
    [x = -0]. *)

Lemma div_eucl_exact (q : Z) (p : positive) :
  Z.div_eucl (q * Z.pos p) (Z.pos p) = (q, 0%Z).
Proof.
  pose proof (Z.div_mul q (Z.pos p) ltac:(lia)) as Hq.
  pose proof (Z.mod_mul q (Z.pos p) ltac:(lia)) as Hr.
  unfold Z.div, Z.modulo in Hq, Hr.
  destruct (Z.div_eucl (q * Z.pos p) (Z.pos p)) as [q' r']. congruence.
Qed.

Lemma SFdiv_core_one_subnormal (m : positive) :
  (Z.pos (digits2_pos m) <= 53)%Z ->
  SFdiv_core_binary prec emax (Z.pos m) (-1074) 4503599627370496 (-52)
  = (Z.pos m, (-1074)%Z, loc_Exact).
Proof.
  intros Hd. unfold SFdiv_core_binary.
  change (Zdigits2 (Z.pos m)) with (Z.pos (digits2_pos m)).
  change (Zdigits2 4503599627370496) with 53%Z.
  unfold fexp, SpecFloat.emin, prec, emax.
  replace (Z.min _ _) with (-1074)%Z by lia.
  change (-1074 - -52 - -1074)%Z with 52%Z. cbv beta iota zeta.
  rewrite Z.shiftl_mul_pow2 by lia.
  change (2 ^ 52)%Z with (Z.pos 4503599627370496).
  rewrite div_eucl_exact. reflexivity.
Qed.

Lemma SFdiv_core_one_normal (m : positive) (e : Z) :
  Z.pos (digits2_pos m) = 53%Z -> (-1074 < e)%Z ->
  SFdiv_core_binary prec emax (Z.pos m) e 4503599627370496 (-52)
  = (Z.pos m~0, (e - 1)%Z, loc_Exact).
Proof.
  intros Hd He. unfold SFdiv_core_binary.
  change (Zdigits2 (Z.pos m)) with (Z.pos (digits2_pos m)).
  change (Zdigits2 4503599627370496) with 53%Z.
  unfold fexp, SpecFloat.emin, prec, emax. rewrite Hd.
  replace (Z.min _ _) with (e - 1)%Z by lia.
  replace (e - -52 - (e - 1))%Z with 53%Z by lia. cbv beta iota zeta.
  rewrite Z.shiftl_mul_pow2 by lia.
  replace (Z.pos m * 2 ^ 53)%Z
    with (Z.pos m~0 * Z.pos 4503599627370496)%Z by lia.
  rewrite div_eucl_exact. reflexivity.
Qed.

Lemma binary_round_aux_exact (s : bool) (m : positive) (e : Z) :
  SpecFloat.bounded prec emax m e = true ->
  binary_round_aux prec emax s (Z.pos m) e loc_Exact = S754_finite s m e.
Proof.
  intros Hb. unfold SpecFloat.bounded, canonical_mantissa in Hb.
  apply andb_prop in Hb as [Hc He]. apply Z.eqb_eq in Hc.
  unfold binary_round_aux, shr_fexp.
  change (Zdigits2 (Z.pos m)) with (Z.pos (digits2_pos m)).
  rewrite Hc, Z.sub_diag.
  cbn [shr shr_record_of_loc loc_of_shr_record shr_m shr_r shr_s
       round_nearest_even].
  change (Zdigits2 (Z.pos m)) with (Z.pos (digits2_pos m)).
  rewrite Hc, Z.sub_diag.
  cbn [shr shr_record_of_loc loc_of_shr_record shr_m shr_r shr_s
       round_nearest_even].
  by rewrite He.
Qed.

Lemma binary_round_aux_doubled (s : bool) (m : positive) (e : Z) :
  SpecFloat.bounded prec emax m e = true -> (-1074 < e)%Z ->
  binary_round_aux prec emax s (Z.pos m~0) (e - 1) loc_Exact
  = S754_finite s m e.
Proof.
  intros Hb Hlt. unfold SpecFloat.bounded, canonical_mantissa in Hb.
  apply andb_prop in Hb as [Hc He]. apply Z.eqb_eq in Hc.
  unfold binary_round_aux, shr_fexp.
  change (Zdigits2 (Z.pos m~0)) with (Z.pos (Pos.succ (digits2_pos m))).
  replace (fexp prec emax (Z.pos (Pos.succ (digits2_pos m)) + (e - 1))
           - (e - 1))%Z with 1%Z
    by (revert Hc; unfold fexp, SpecFloat.emin, prec, emax; lia).
  cbn [shr]. replace (e - 1 + 1)%Z with e by lia.
  change (SpecFloat.iter_pos shr_1 1
            (shr_record_of_loc (Z.pos m~0) loc_Exact))
    with {| shr_m := Z.pos m; shr_r := false; shr_s := false |}.
  cbn [shr shr_record_of_loc loc_of_shr_record shr_m shr_r shr_s
       round_nearest_even].
  change (Zdigits2 (Z.pos m)) with (Z.pos (digits2_pos m)).
  rewrite Hc, Z.sub_diag.
  cbn [shr shr_record_of_loc loc_of_shr_record shr_m shr_r shr_s
       round_nearest_even].
  by rewrite He.
Qed.

Lemma SFdiv_one (s : bool) (m : positive) (e : Z) :
  SpecFloat.bounded prec emax m e = true ->
  SFdiv prec emax (S754_finite s m e)
    (S754_finite false 4503599627370496 (-52))
  = S754_finite s m e.
Proof.
  intros Hb. pose proof Hb as Hb'.
  unfold SpecFloat.bounded, canonical_mantissa in Hb.
  apply andb_prop in Hb as [Hc He].
  apply Z.eqb_eq in Hc. apply Z.leb_le in He.
  unfold fexp, SpecFloat.emin, prec, emax in Hc.
  unfold SFdiv. rewrite xorb_false_r.
  destruct (Z.eq_dec e (-1074)%Z) as [->|Hne].
  - rewrite SFdiv_core_one_subnormal by lia. by apply binary_round_aux_exact.
  - rewrite SFdiv_core_one_normal by lia.
    apply binary_round_aux_doubled; [done|lia].
Qed.

Lemma float_div_one (x : float) : (x / 1)%float = x.
Proof.
  apply Prim2SF_inj. rewrite div_spec.
  change (Prim2SF 1) with (S754_finite false 4503599627370496 (-52)).
  pose proof (Prim2SF_valid x) as Hv. unfold SF64div.
  destruct (Prim2SF x) as [s|s| |s m e]; try reflexivity.
  - by destruct s.
  - by destruct s.
  - by apply SFdiv_one.
Qed.

Lemma float_zero_add (x : float) : x <> (-0)%float -> (0 + x)%float = x.
Proof.
  intros Hx. apply Prim2SF_inj. rewrite add_spec.
  change (Prim2SF 0) with (S754_zero false).
  unfold SF64add, SFadd.
  destruct (Prim2SF x) as [s|s| |s m e] eqn:Hs; try reflexivity.
  destruct s; [|reflexivity].
  exfalso. apply Hx. rewrite <- (SF2Prim_Prim2SF x), Hs. reflexivity.
Qed.

Lemma averageOfVectors_single_double (v : list float) :
  Forall (fun x => x <> (-0)%float) v -> averageOfVectors [v] = Ok v.
Proof.
  intros Hv. apply averageOfVectors_single.
  eapply Forall_impl; [exact Hv|]. intros x Hx.
  cbn [div add zero ofNat floatArith length].
  change (of_uint63 (Uint63.of_Z (Z.of_nat 1))) with 1%float.
  by rewrite float_zero_add, float_div_one.
Qed.

(** C6, as the code has it: for a non-empty sequence of vectors of one
    length [n], [averageOfVectors] returns a vector of length [n] whose
    component [i] is the sum of the components [i], taken from [0] in the
    order of the sequence, divided by the number of vectors, all on
    doubles; and the average of a single vector [v] is [v] itself for
    every [v] of doubles that has no component [-0]. *)
Theorem averageOfVectors_mean :
  (forall (vectors : list (list float)) (n : nat),
     vectors <> [] -> Forall (fun v => length v = n) vectors ->
     exists average,
       averageOfVectors vectors = Ok average /\ length average = n /\
       forall i col,
         Forall2 (fun v x => v !! i = Some x) vectors col ->
         average !! i
         = Some (fold_left PrimFloat.add col 0
                 / of_uint63 (Uint63.of_Z (Z.of_nat (length vectors)))
                )%float) /\
  (forall v : list float,
     Forall (fun x => x <> (-0)%float) v -> averageOfVectors [v] = Ok v).
Proof.
  split.
  - intros vectors n Hne Hlen.
    exact (averageOfVectors_columns vectors n Hne Hlen).
  - exact averageOfVectors_single_double.
Qed.

Lemma averageOfVectors_mean_witness :
  (exists average,
     averageOfVectors [[1; 2]; [3; 5]]%float = Ok average /\
     length average = 2 /\
     average !! 1 = Some (7 / 2)%float) /\
  averageOfVectors [[1.5; -2; 0; infinity; nan]]%float
  = Ok [1.5; -2; 0; infinity; nan]%float.
Proof.
  destruct averageOfVectors_mean as [Hmean Hsingle]. split.
  - destruct (Hmean [[1; 2]; [3; 5]]%float 2) as (average & Heq & Hlen & Hcol);
      [discriminate | repeat constructor |].
    exists average. split; [exact Heq|]. split; [exact Hlen|].
    apply (Hcol 1 [2; 5]%float). repeat constructor.
  - apply Hsingle.
    repeat constructor; intros Heq; apply (f_equal Prim2SF) in Heq;
      vm_compute in Heq; discriminate Heq.
Defined.

(** On doubles the average of the single vector [[-0]] is [[0]], and the
    average of the largest double with itself is [[Infinity]]. *)
Lemma averageOfVectors_not_exact :
  averageOfVectors [[(-0)%float]] <> Ok [(-0)%float] /\
  averageOfVectors [[0x1.fffffffffffffp+1023%float];
                    [0x1.fffffffffffffp+1023%float]]
  <> Ok [0x1.fffffffffffffp+1023%float].
Proof.
  split; intros Heq.
  - apply (f_equal
             (fun r => match r with
                       | Ok [x] => (0 <? 1 / x)%float
                       | _ => false
                       end)) in Heq.
    vm_compute in Heq. discriminate Heq.
  - apply (f_equal
             (fun r => match r with
                       | Ok [x] => (x <? infinity)%float
                       | _ => false
                       end)) in Heq.
    vm_compute in Heq. discriminate Heq.
Qed.

(** *** Rounding

    What the operations of [cosineSimilarity] do to a positive double
    with a full mantissa: each of [sqrt], [*] and [/] returns such a
    double again, off the exact result by a relative error of at most
    [2^-50]. The bounds are coarse (one unit in the last place where half
    a unit holds); the tolerance of the specification is a million times
    wider. *)

Section Rounding.
Local Open Scope Z_scope.

(** The number of binary digits of a mantissa. *)
Lemma digits2_pos_bounds (p : positive) :
  2 ^ (Z.pos (digits2_pos p) - 1) <= Z.pos p < 2 ^ Z.pos (digits2_pos p).
Proof.
  induction p as [p IH|p IH|]; cbn [digits2_pos]; [| |simpl; lia].
  all: rewrite Pos2Z.inj_succ;
    replace (Z.succ (Z.pos (digits2_pos p)) - 1)
      with (Z.succ (Z.pos (digits2_pos p) - 1)) by lia;
    rewrite !Z.pow_succ_r by lia; lia.
Qed.

Lemma digits2_pos_unique (p : positive) (d : Z) :
  2 ^ (d - 1) <= Z.pos p < 2 ^ d -> Z.pos (digits2_pos p) = d.
Proof.
  intros [Hlo Hhi]. pose proof (digits2_pos_bounds p) as [Hlo' Hhi'].
  destruct (Z.lt_trichotomy (Z.pos (digits2_pos p)) d) as [Hlt|[Heq|Hgt]];
    [|exact Heq|].
  - pose proof (Z.pow_le_mono_r 2 (Z.pos (digits2_pos p)) (d - 1)
                  ltac:(lia) ltac:(lia)). lia.
  - assert (0 <= d) as Hd.
    { destruct (Z.neg_nonneg_cases d) as [Hneg|]; [|done].
      rewrite Z.pow_neg_r in Hhi by done. lia. }
    pose proof (Z.pow_le_mono_r 2 d (Z.pos (digits2_pos p) - 1)
                  ltac:(lia) ltac:(lia)). lia.
Qed.

(** Shifting a mantissa to the right divides it, whatever the bits that
    fall off. *)
Lemma shr_1_m (mrs : shr_record) :
  0 <= shr_m mrs -> shr_m (shr_1 mrs) = shr_m mrs / 2.
Proof.
  intros Hm. rewrite <- Z.div2_div.
  destruct mrs as [[|[p|p|]|p] r s]; try reflexivity; simpl in Hm; lia.
Qed.

Lemma iter_shr_m (p : positive) :
  forall mrs, 0 <= shr_m mrs ->
    shr_m (SpecFloat.iter_pos shr_1 p mrs) = shr_m mrs / 2 ^ Z.pos p.
Proof.
  induction p as [p IH|p IH|]; intros mrs Hm; cbn [SpecFloat.iter_pos].
  - assert (0 <= shr_m (shr_1 mrs)) as H1
        by (rewrite shr_1_m by done; apply Z.div_pos; lia).
    assert (0 <= shr_m (SpecFloat.iter_pos shr_1 p (shr_1 mrs))) as H2
        by (rewrite IH by done; apply Z.div_pos; lia).
    rewrite IH, IH, shr_1_m by done.
    rewrite !Z.div_div by lia. f_equal.
    replace (Z.pos p~1) with (1 + Z.pos p + Z.pos p) by lia.
    rewrite !Z.pow_add_r by lia. change (2 ^ 1) with 2. ring.
  - assert (0 <= shr_m (SpecFloat.iter_pos shr_1 p mrs)) as H2
        by (rewrite IH by done; apply Z.div_pos; lia).
    rewrite IH, IH by done.
    rewrite !Z.div_div by lia. f_equal.
    replace (Z.pos p~0) with (Z.pos p + Z.pos p) by lia.
    rewrite !Z.pow_add_r by lia. ring.
  - rewrite shr_1_m by done. reflexivity.
Qed.

Lemma shr_spec (mrs : shr_record) (e n : Z) :
  0 <= n -> 0 <= shr_m mrs ->
  shr_m (shr mrs e n).1 = shr_m mrs / 2 ^ n /\ (shr mrs e n).2 = e + n.
Proof.
  intros Hn Hm. destruct n as [|p|p]; [| |lia]; cbn [shr fst snd].
  - by rewrite Z.div_1_r, Z.add_0_r.
  - by rewrite iter_shr_m.
Qed.

Lemma shr_record_of_loc_m (m : Z) (l : location) :
  shr_m (shr_record_of_loc m l) = m.
Proof. by destruct l as [|[]]. Qed.

Lemma round_nearest_even_cases (m : Z) (l : location) :
  round_nearest_even m l = m \/ round_nearest_even m l = m + 1.
Proof. destruct l as [|[]]; simpl; try destruct (Z.even m); auto. Qed.


Lemma bpow_nonneg (n : Z) : 0 <= n -> bpow n = IZR (2 ^ n).
Proof.
  intros Hn. unfold bpow. destruct n as [|p|p]; [reflexivity| |lia].
  symmetry. apply Zpower_pos_powerRZ.
Qed.

Lemma bpow_pos (e : Z) : (0 < bpow e)%R.
Proof. apply powerRZ_lt. lra. Qed.

Lemma bpow_add (a b : Z) : bpow (a + b) = (bpow a * bpow b)%R.
Proof. apply powerRZ_add. lra. Qed.

(** The last step of a rounding: a mantissa of 53 bits is kept, and
    [2^53], which rounding up can reach, is written [2^52] with the next
    exponent. *)
Lemma renormalise (sx : bool) (R1 e' : Z) :
  2 ^ 52 <= R1 <= 2 ^ 53 -> -1074 <= e' <= 970 ->
  exists R Er,
    (let '(mrs'', e'') := shr_fexp prec emax R1 e' loc_Exact in
     match shr_m mrs'' with
     | 0 => S754_zero sx
     | Z.pos m =>
         if e'' <=? emax - prec then S754_finite sx m e'' else S754_infinity sx
     | Z.neg _ => S754_nan
     end) = S754_finite sx R Er /\
    normal R Er /\ (Er = e' \/ Er = e' + 1) /\
    value R Er = (IZR R1 * bpow e')%R.
Proof.
  intros HR He. destruct (Z.eq_dec R1 (2 ^ 53)) as [->|Hne].
  - exists 4503599627370496%positive, (e' + 1). unfold shr_fexp.
    change (Zdigits2 (2 ^ 53)) with 54.
    replace (fexp prec emax (54 + e') - e') with 1
      by (unfold fexp, SpecFloat.emin, prec, emax; lia).
    cbn [shr shr_record_of_loc SpecFloat.iter_pos shr_1 shr_m].
    change (shr_m (shr_1 {| shr_m := 2 ^ 53; shr_r := false; shr_s := false |}))
      with (Z.pos 4503599627370496).
    cbv beta iota.
    replace (e' + 1 <=? emax - prec) with true
      by (symmetry; apply Z.leb_le; unfold emax, prec; lia).
    split; [reflexivity|]. split; [unfold normal; lia|]. split; [by right|].
    unfold value. rewrite bpow_add.
    replace (bpow 1) with 2%R by (unfold bpow; simpl; lra).
    change (2 ^ 53) with 9007199254740992. lra.
  - destruct R1 as [|r1|r1]; [lia| |lia].
    exists r1, e'. unfold shr_fexp.
    change (Zdigits2 (Z.pos r1)) with (Z.pos (digits2_pos r1)).
    rewrite (digits2_pos_unique r1 53) by (change (53 - 1) with 52; lia).
    replace (fexp prec emax (53 + e') - e') with 0
      by (unfold fexp, SpecFloat.emin, prec, emax; lia).
    cbn [shr shr_record_of_loc shr_m].
    replace (e' <=? emax - prec) with true
      by (symmetry; apply Z.leb_le; unfold emax, prec; lia).
    split; [reflexivity|]. split; [unfold normal; lia|]. split; [by left|].
    reflexivity.
Qed.

(** Rounding a mantissa of [n + 53] bits away from the subnormal numbers
    and from overflow: the result has a full mantissa, and is off [M * 2^E]
    by one unit in the last place at most, wherever in [[M, M + 1)] the
    exact number lies. *)
Lemma round_normal (sx : bool) (M : positive) (E n : Z) (l : location) :
  Z.pos (digits2_pos M) = n + 53 -> 0 <= n -> -1074 <= E + n <= 970 ->
  exists R Er,
    binary_round_aux prec emax sx (Z.pos M) E l = S754_finite sx R Er /\
    normal R Er /\ (Er = E + n \/ Er = E + n + 1) /\
    within 4503599627370496 (value R Er) (IZR (Z.pos M) * bpow E).
Proof.
  intros HD Hn HE.
  pose proof (digits2_pos_bounds M) as [Hlo Hhi]. rewrite HD in Hlo, Hhi.
  replace (n + 53 - 1) with (n + 52) in Hlo by lia.
  rewrite Z.pow_add_r in Hlo, Hhi by lia.
  assert (0 < 2 ^ n) as Hpow by (apply Z.pow_pos_nonneg; lia).
  set (M1 := Z.pos M / 2 ^ n).
  assert (2 ^ 52 <= M1 < 2 ^ 53) as HM1.
  { split; [apply Z.div_le_lower_bound | apply Z.div_lt_upper_bound]; lia. }
  assert (2 ^ n * M1 <= Z.pos M < 2 ^ n * (M1 + 1)) as Hfloor.
  { pose proof (Z.mul_div_le (Z.pos M) (2 ^ n) Hpow).
    pose proof (Z.mul_succ_div_gt (Z.pos M) (2 ^ n) Hpow). subst M1. lia. }
  unfold binary_round_aux.
  destruct (shr_fexp prec emax (Z.pos M) E l) as [mrs' e'] eqn:H1.
  unfold shr_fexp in H1.
  change (Zdigits2 (Z.pos M)) with (Z.pos (digits2_pos M)) in H1.
  rewrite HD in H1.
  replace (fexp prec emax (n + 53 + E) - E) with n in H1
    by (unfold fexp, SpecFloat.emin, prec, emax; lia).
  destruct (shr_spec (shr_record_of_loc (Z.pos M) l) E n Hn) as [Hm He].
  { rewrite shr_record_of_loc_m. lia. }
  rewrite H1 in Hm, He. cbn [fst snd] in Hm, He.
  rewrite shr_record_of_loc_m in Hm. fold M1 in Hm. subst e'.
  set (R1 := round_nearest_even (shr_m mrs') (loc_of_shr_record mrs')).
  assert (R1 = M1 \/ R1 = M1 + 1) as HR1
    by (rewrite <- Hm; apply round_nearest_even_cases).
  destruct (renormalise sx R1 (E + n))
    as (R & Er & -> & Hnormal & HEr & Hvalue); [lia | lia |].
  exists R, Er. split; [reflexivity|]. split; [exact Hnormal|].
  split; [exact HEr|].
  rewrite Hvalue, bpow_add, (bpow_nonneg n Hn).
  pose proof (bpow_pos E) as HbE.
  assert (IZR (2 ^ n) * IZR M1 <= IZR (Z.pos M))%R as Hf1
    by (rewrite <- mult_IZR; apply IZR_le; lia).
  assert (IZR (Z.pos M) <= IZR (2 ^ n) * (IZR M1 + 1))%R as Hf2
    by (rewrite <- plus_IZR, <- mult_IZR; apply IZR_le; lia).
  assert (IZR (2 ^ n) * 4503599627370496 <= IZR (Z.pos M))%R as Hf3
    by (rewrite <- mult_IZR; apply IZR_le; lia).
  assert (0 < IZR (2 ^ n))%R as Hf4 by (apply IZR_lt; lia).
  assert (IZR R1 = IZR M1 \/ IZR R1 = IZR M1 + 1)%R as [->| ->]
    by (destruct HR1 as [->| ->]; [by left | right; by rewrite plus_IZR]).
  all: unfold within; split.
  all: match goal with
       | |- (?k * (?a * (?b * ?c) - ?d * ?b) <= ?d * ?b)%R =>
           replace (k * (a * (b * c) - d * b))%R
             with (b * (k * (a * c - d)))%R by ring;
           rewrite (Rmult_comm d b); apply Rmult_le_compat_l; [lra|]
       | |- (?k * (?d * ?b - ?a * (?b * ?c)) <= ?d * ?b)%R =>
           replace (k * (d * b - a * (b * c)))%R
             with (b * (k * (d - a * c)))%R by ring;
           rewrite (Rmult_comm d b); apply Rmult_le_compat_l; [lra|]
       end.
  all: set (T := IZR (2 ^ n)) in *; set (X := IZR (Z.pos M)) in *;
    set (Y := IZR M1) in *; try nra.
Qed.


Lemma normal_digits (m : positive) (e : Z) :
  normal m e -> Z.pos (digits2_pos m) = 53.
Proof.
  intros [Hm _]. apply digits2_pos_unique. change (53 - 1) with 52. lia.
Qed.

Lemma value_pos (m : positive) (e : Z) : (0 < value m e)%R.
Proof.
  unfold value. apply Rmult_lt_0_compat; [|apply bpow_pos].
  apply IZR_lt. lia.
Qed.

(** The product of two doubles. *)
Lemma mul_normal (m1 m2 : positive) (e1 e2 : Z) :
  normal m1 e1 -> normal m2 e2 ->
  -1074 <= e1 + e2 + 52 -> e1 + e2 + 53 <= 970 ->
  exists P ep,
    SFmul prec emax (S754_finite false m1 e1) (S754_finite false m2 e2)
    = S754_finite false P ep /\
    normal P ep /\ e1 + e2 + 52 <= ep <= e1 + e2 + 54 /\
    within 4503599627370496 (value P ep) (value m1 e1 * value m2 e2).
Proof.
  intros [Hm1 _] [Hm2 _] Hlo Hhi. cbn [SFmul xorb].
  assert (2 ^ 104 <= Z.pos (m1 * m2) < 2 ^ 106) as HM.
  { rewrite Pos2Z.inj_mul. change (2 ^ 104) with (2 ^ 52 * 2 ^ 52).
    change (2 ^ 106) with (2 ^ 53 * 2 ^ 53). nia. }
  assert (exists n, (n = 52 \/ n = 53) /\
                    Z.pos (digits2_pos (m1 * m2)) = n + 53) as (n & Hn & HD).
  { destruct (Z.lt_ge_cases (Z.pos (m1 * m2)) (2 ^ 105)).
    - exists 52. split; [by left|]. apply digits2_pos_unique.
      change (52 + 53 - 1) with 104. change (52 + 53) with 105. lia.
    - exists 53. split; [by right|]. apply digits2_pos_unique.
      change (53 + 53 - 1) with 105. change (53 + 53) with 106. lia. }
  destruct (round_normal false (m1 * m2) (e1 + e2) n loc_Exact HD)
    as (P & ep & HP & Hnormal & Hep & Hclose); [lia | lia |].
  exists P, ep. split; [exact HP|]. split; [exact Hnormal|].
  split; [lia|].
  replace (value m1 e1 * value m2 e2)%R
    with (IZR (Z.pos (m1 * m2)) * bpow (e1 + e2))%R; [exact Hclose|].
  unfold value. rewrite Pos2Z.inj_mul, mult_IZR, bpow_add. ring.
Qed.

(** The quotient of two doubles. *)
Lemma div_normal (m1 m2 : positive) (e1 e2 : Z) :
  normal m1 e1 -> normal m2 e2 ->
  -1021 <= e1 - e2 -> e1 - e2 <= 1022 ->
  exists Q eq,
    SFdiv prec emax (S754_finite false m1 e1) (S754_finite false m2 e2)
    = S754_finite false Q eq /\
    normal Q eq /\ e1 - e2 - 53 <= eq <= e1 - e2 - 51 /\
    within 2251799813685248 (value Q eq * value m2 e2) (value m1 e1).
Proof.
  intros Hn1 Hn2 Hlo Hhi. cbn [SFdiv xorb]. unfold SFdiv_core_binary.
  change (Zdigits2 (Z.pos m1)) with (Z.pos (digits2_pos m1)).
  change (Zdigits2 (Z.pos m2)) with (Z.pos (digits2_pos m2)).
  rewrite (normal_digits m1 e1 Hn1), (normal_digits m2 e2 Hn2).
  destruct Hn1 as [Hm1 He1], Hn2 as [Hm2 He2].
  replace (Z.min (fexp prec emax (53 + e1 - (53 + e2))) (e1 - e2))
    with (e1 - e2 - 53)
    by (unfold fexp, SpecFloat.emin, prec, emax; lia).
  replace (e1 - e2 - (e1 - e2 - 53)) with 53 by lia. cbv beta iota zeta.
  rewrite Z.shiftl_mul_pow2 by lia.
  pose proof (Z_div_mod (Z.pos m1 * 2 ^ 53) (Z.pos m2) ltac:(lia)) as Hdiv.
  destruct (Z.div_eucl (Z.pos m1 * 2 ^ 53) (Z.pos m2)) as [q r].
  destruct Hdiv as [Hq Hr].
  assert (2 ^ 52 <= q < 2 ^ 54) as Hqb.
  { change (2 ^ 54) with (2 * 2 ^ 53). nia. }
  destruct q as [|q|q]; [lia| |lia].
  assert (exists n, (n = 0 \/ n = 1) /\
                    Z.pos (digits2_pos q) = n + 53) as (n & Hn & HD).
  { destruct (Z.lt_ge_cases (Z.pos q) (2 ^ 53)).
    - exists 0. split; [by left|]. apply digits2_pos_unique.
      change (0 + 53 - 1) with 52. change (0 + 53) with 53. lia.
    - exists 1. split; [by right|]. apply digits2_pos_unique.
      change (1 + 53 - 1) with 53. change (1 + 53) with 54. lia. }
  destruct (round_normal false q (e1 - e2 - 53) n
              (new_location (Z.pos m2) r) HD)
    as (Q & eq & HQ & Hnormal & Heq & Hclose); [lia | lia |].
  exists Q, eq. split; [exact HQ|]. split; [exact Hnormal|].
  split; [lia|].
  assert (value m1 e1
          = IZR (Z.pos m1) * 9007199254740992 * bpow (e1 - e2 - 53) * bpow e2)%R
    as ->.
  { unfold value. replace e1 with (53 + (e1 - e2 - 53) + e2) at 1 by lia.
    rewrite !bpow_add, (bpow_nonneg 53) by lia.
    change (IZR (2 ^ 53)) with 9007199254740992%R. ring. }
  unfold value at 2. unfold within in *.
  pose proof (bpow_pos (e1 - e2 - 53)) as Hb1. pose proof (bpow_pos e2) as Hb2.
  set (b1 := bpow (e1 - e2 - 53)) in *. set (b2 := bpow e2) in *.
  set (v := value Q eq) in *.
  assert (IZR (Z.pos m2) * IZR (Z.pos q) <= IZR (Z.pos m1) * IZR (2 ^ 53))%R
    as Hf1 by (rewrite <- !mult_IZR; apply IZR_le; lia).
  assert (IZR (Z.pos m1) * IZR (2 ^ 53)
          <= IZR (Z.pos m2) * IZR (Z.pos q) + IZR (Z.pos m2))%R
    as Hf2 by (rewrite <- !mult_IZR, <- plus_IZR; apply IZR_le; lia).
  assert (4503599627370496 <= IZR (Z.pos m1))%R as Hf3 by (apply IZR_le; lia).
  assert (IZR (Z.pos m2) <= 9007199254740992)%R as Hf4 by (apply IZR_le; lia).
  assert (0 < IZR (Z.pos m2))%R as Hf5 by (apply IZR_lt; lia).
  change (IZR (2 ^ 53)) with 9007199254740992%R in *.
  set (x1 := IZR (Z.pos m1)) in *. set (x2 := IZR (Z.pos m2)) in *.
  set (y := IZR (Z.pos q)) in *. destruct Hclose as [Hc1 Hc2].
  assert (x2 * (y * b1) <= x1 * 9007199254740992 * b1)%R as G1 by nra.
  assert (x1 * 9007199254740992 * b1 <= x2 * (y * b1) + x2 * b1)%R
    as G2 by nra.
  assert (4503599627370496 * (v * x2 - x2 * (y * b1)) <= x2 * (y * b1))%R
    as G3 by nra.
  assert (4503599627370496 * (x2 * (y * b1) - v * x2) <= x2 * (y * b1))%R
    as G4 by nra.
  assert (x2 * b1 <= 9007199254740992 * b1)%R as G5 by nra.
  assert (4503599627370496 * 9007199254740992 * b1
          <= x1 * 9007199254740992 * b1)%R as G6 by nra.
  split.
  - replace (2251799813685248
             * (v * (x2 * b2) - x1 * 9007199254740992 * b1 * b2))%R
      with (b2 * (2251799813685248 * (v * x2 - x1 * 9007199254740992 * b1)))%R
      by ring.
    rewrite (Rmult_comm _ b2). apply Rmult_le_compat_l; [lra|]. lra.
  - replace (2251799813685248
             * (x1 * 9007199254740992 * b1 * b2 - v * (x2 * b2)))%R
      with (b2 * (2251799813685248 * (x1 * 9007199254740992 * b1 - v * x2)))%R
      by ring.
    rewrite (Rmult_comm _ b2). apply Rmult_le_compat_l; [lra|]. lra.
Qed.


(** The square root of a double: its square is the double again, up to
    the rounding. *)
Lemma sqrt_normal (m : positive) (e : Z) :
  normal m e ->
  exists Q eq,
    SFsqrt prec emax (S754_finite false m e) = S754_finite false Q eq /\
    normal Q eq /\ e - 53 <= 2 * eq <= e - 50 /\
    within 1125899906842624 (value Q eq * value Q eq) (value m e).
Proof.
  intros Hn. cbn [SFsqrt]. unfold SFsqrt_core_binary.
  change (Zdigits2 (Z.pos m)) with (Z.pos (digits2_pos m)).
  rewrite (normal_digits m e Hn). destruct Hn as [Hm He].
  assert (Z.div2 (53 + e + 1) = Z.div2 e + 27) as ->.
  { rewrite !Z.div2_div. replace (53 + e + 1) with (e + 27 * 2) by lia.
    apply Z.div_add. lia. }
  assert (e = 2 * Z.div2 e \/ e = 2 * Z.div2 e + 1) as Hparity.
  { pose proof (Z.div2_odd e) as Hodd.
    destruct (Z.odd e); simpl in Hodd; lia. }
  remember (Z.div2 e - 26) as e' eqn:He'.
  replace (Z.min (fexp prec emax (Z.div2 e + 27)) (Z.div2 e)) with e'
    by (unfold fexp, SpecFloat.emin, prec, emax; lia).
  assert (exists s, 0 < s /\ e - 2 * e' = s /\ (s = 52 \/ s = 53))
    as (s & Hs0 & Hse & Hs') by (exists (e - 2 * e'); lia).
  rewrite Hse.
  assert (match s with
          | 0 => Z.pos m
          | Z.pos _ => Z.shiftl (Z.pos m) s
          | Z.neg _ => 0
          end = Z.pos m * 2 ^ s) as ->
    by (destruct s; [lia | by rewrite Z.shiftl_mul_pow2 | lia]).
  pose proof (Z.sqrtrem_spec (Z.pos m * 2 ^ s) ltac:(lia)) as Hsqrt.
  destruct (Z.sqrtrem (Z.pos m * 2 ^ s)) as [q r]. destruct Hsqrt as [Hq Hr].
  assert (2 ^ 104 <= Z.pos m * 2 ^ s < 2 ^ 106) as HM.
  { change (2 ^ 104) with (2 ^ 52 * 2 ^ 52).
    change (2 ^ 106) with (2 ^ 53 * 2 ^ 53).
    destruct Hs' as [-> | ->]; [change (2 ^ 53) with (2 * 2 ^ 52) in * |];
      lia. }
  assert (2 ^ 52 <= q < 2 ^ 53) as Hqb.
  { change (2 ^ 104) with (2 ^ 52 * 2 ^ 52) in HM.
    change (2 ^ 106) with (2 ^ 53 * 2 ^ 53) in HM. nia. }
  destruct q as [|q|q]; [lia| |lia].
  destruct (round_normal false q e' 0
              (if r =? 0 then loc_Exact
               else loc_Inexact (if r <=? Z.pos q then Lt else Gt)))
    as (Q & eq & HQ & Hnormal & Heq & Hclose);
    [apply digits2_pos_unique; change (0 + 53 - 1) with 52; lia | lia | lia |].
  rewrite HQ. exists Q, eq. split; [reflexivity|]. split; [exact Hnormal|].
  split; [lia|].
  assert (value m e = IZR (Z.pos m * 2 ^ s) * bpow e' * bpow e')%R as ->.
  { unfold value. replace e with (s + e' + e') at 1 by lia.
    rewrite !bpow_add, (bpow_nonneg s), mult_IZR by lia. ring. }
  unfold within in *. pose proof (bpow_pos e') as Hb.
  set (b := bpow e') in *. set (v := value Q eq) in *.
  rewrite Hq.
  assert (4503599627370496 <= IZR (Z.pos q))%R as Hf1 by (apply IZR_le; lia).
  assert (IZR (Z.pos q * Z.pos q)
          <= IZR (Z.pos q * Z.pos q + r)
          <= IZR (Z.pos q * Z.pos q) + 2 * IZR (Z.pos q))%R as Hf2.
  { split; [apply IZR_le; lia|].
    change 2%R with (IZR 2). rewrite <- mult_IZR, <- plus_IZR.
    apply IZR_le. lia. }
  rewrite mult_IZR in Hf2.
  set (X := IZR (Z.pos q * Z.pos q + r)) in *. set (y := IZR (Z.pos q)) in *.
  destruct Hclose as [Hc1 Hc2]. destruct Hf2 as [Hf2 Hf3].
  assert (0 < y * b)%R as Hw by nra.
  assert (4503599627370496 * b <= y * b)%R as Hbw by nra.
  set (w := (y * b)%R) in *.
  assert (0 < v)%R as Hv by lra.
  assert (w * w <= X * b * b)%R as G1.
  { replace (w * w)%R with (y * y * (b * b))%R by (unfold w; ring).
    replace (X * b * b)%R with (X * (b * b))%R by ring.
    apply Rmult_le_compat_r; [nra | exact Hf2]. }
  assert (X * b * b <= w * w + 2 * (w * b))%R as G2.
  { replace (w * w + 2 * (w * b))%R with ((y * y + 2 * y) * (b * b))%R
      by (unfold w; ring).
    replace (X * b * b)%R with (X * (b * b))%R by ring.
    apply Rmult_le_compat_r; [nra | exact Hf3]. }
  assert (4503599627370496 * (w * b) <= w * w)%R as G3 by nra.
  assert (4503599627370496 * v <= 4503599627370497 * w)%R as G4 by lra.
  assert (4503599627370495 * w <= 4503599627370496 * v)%R as G5 by lra.
  assert (4503599627370496 * 4503599627370496 * (v * v)
          <= 4503599627370497 * 4503599627370497 * (w * w))%R as G6 by nra.
  assert (4503599627370495 * 4503599627370495 * (w * w)
          <= 4503599627370496 * 4503599627370496 * (v * v))%R as G7 by nra.
  assert (0 < w * w)%R as G8 by nra.
  split; lra.
Qed.


Lemma bpow_le (a b : Z) : a <= b -> (bpow a <= bpow b)%R.
Proof.
  intros Hab. replace b with (a + (b - a)) by lia.
  rewrite bpow_add, (bpow_nonneg (b - a)) by lia.
  pose proof (bpow_pos a) as Ha.
  assert (1 <= IZR (2 ^ (b - a)))%R as Hk.
  { apply IZR_le. pose proof (Z.pow_pos_nonneg 2 (b - a)). lia. }
  nra.
Qed.

Lemma bpow_opp (n : Z) : 0 <= n -> (bpow (- n) * IZR (2 ^ n) = 1)%R.
Proof.
  intros Hn. rewrite <- (bpow_nonneg n Hn), <- bpow_add.
  by replace (- n + n) with 0 by lia.
Qed.

(** A double within [2^-48] of [1] is one of a few. *)
Lemma value_nearOne (R : positive) (er : Z) :
  normal R er ->
  (281474976710656 * (value R er - 1) <= 1)%R ->
  (281474976710656 * (1 - value R er) <= 1)%R ->
  nearOne R er.
Proof.
  intros [HR _] Hhi Hlo. unfold value in *.
  assert (4503599627370496 <= IZR (Z.pos R) < 9007199254740992)%R as [Hr1 Hr2]
    by (split; [apply IZR_le | apply IZR_lt]; lia).
  pose proof (bpow_pos er) as Hb.
  pose proof (bpow_opp 51 ltac:(lia)) as H51.
  pose proof (bpow_opp 52 ltac:(lia)) as H52.
  pose proof (bpow_opp 53 ltac:(lia)) as H53.
  pose proof (bpow_opp 54 ltac:(lia)) as H54.
  change (IZR (2 ^ 51)) with 2251799813685248%R in H51.
  change (IZR (2 ^ 52)) with 4503599627370496%R in H52.
  change (IZR (2 ^ 53)) with 9007199254740992%R in H53.
  change (IZR (2 ^ 54)) with 18014398509481984%R in H54.
  change (- (51)) with (-51) in H51. change (- (52)) with (-52) in H52.
  change (- (53)) with (-53) in H53. change (- (54)) with (-54) in H54.
  destruct (Z.le_gt_cases er (-54)) as [Hsmall|Hge].
  { pose proof (bpow_le er (-54) Hsmall). exfalso. nra. }
  destruct (Z.le_gt_cases (-51) er) as [Hbig|Hle].
  { pose proof (bpow_le (-51) er Hbig). exfalso. nra. }
  assert (er = -52 \/ er = -53) as [-> | ->] by lia.
  - left. split; [reflexivity|]. split; [lia|].
    apply le_IZR. rewrite plus_IZR.
    change (IZR (2 ^ 52)) with 4503599627370496%R. nra.
  - right. split; [reflexivity|]. split; [|lia].
    apply le_IZR. rewrite minus_IZR.
    change (IZR (2 ^ 53)) with 9007199254740992%R. nra.
Qed.

(** [s / (sqrt s * sqrt s)] for a double [s] with a full mantissa, below
    [2^1020]. *)
Lemma ratio_nearOne (m : positive) (e : Z) :
  normal m e -> e <= 967 ->
  exists R er,
    SFdiv prec emax (S754_finite false m e)
      (SFmul prec emax (SFsqrt prec emax (S754_finite false m e))
                       (SFsqrt prec emax (S754_finite false m e)))
    = S754_finite false R er /\ nearOne R er.
Proof.
  intros Hn He. pose proof Hn as [_ He'].
  destruct (sqrt_normal m e Hn) as (Q & e1 & -> & HnQ & He1 & Hc1).
  destruct (mul_normal Q Q e1 e1 HnQ HnQ) as (P & ep & -> & HnP & Hep & Hc2);
    [lia | lia |].
  destruct (div_normal m P e ep Hn HnP) as (R & er & -> & HnR & Her & Hc3);
    [lia | lia |].
  exists R, er. split; [reflexivity|]. apply value_nearOne; [exact HnR|..].
  all: pose proof (value_pos m e) as HS; pose proof (value_pos P ep) as HP;
    unfold within in *;
    set (S := value m e) in *; set (a := (value Q e1 * value Q e1)%R) in *;
    set (b := value P ep) in *; set (c := value R er) in *;
    destruct Hc1 as [Ha1 Ha2], Hc2 as [Hb1 Hb2], Hc3 as [Hd1 Hd2].
  - apply Rnot_lt_le. intros Hc.
    assert ((1 + / 281474976710656) * b < c * b)%R
      by (apply Rmult_lt_compat_r; lra).
    lra.
  - apply Rnot_lt_le. intros Hc.
    assert (c * b < (1 - / 281474976710656) * b)%R
      by (apply Rmult_lt_compat_r; lra).
    lra.
Qed.

End Rounding.

(** *** Signs

    Squares and their sums are never negative, and on such doubles
    negation commutes with the operations of the scorer. *)

Section Signs.

Lemma binary_round_aux_signless (m e : Z) (l : location) :
  signless (binary_round_aux prec emax false m e l) = true.
Proof.
  unfold binary_round_aux.
  destruct (shr_fexp prec emax m e l) as [mrs' e'].
  destruct (shr_fexp prec emax _ e' loc_Exact) as [mrs'' e''].
  destruct (shr_m mrs''); [reflexivity | | reflexivity].
  by destruct (e'' <=? emax - prec)%Z.
Qed.

Lemma binary_round_aux_opp (s : bool) (m e : Z) (l : location) :
  binary_round_aux prec emax (negb s) m e l
  = SFopp (binary_round_aux prec emax s m e l).
Proof.
  unfold binary_round_aux.
  destruct (shr_fexp prec emax m e l) as [mrs' e'].
  destruct (shr_fexp prec emax _ e' loc_Exact) as [mrs'' e''].
  destruct (shr_m mrs''); [reflexivity | | reflexivity].
  by destruct (e'' <=? emax - prec)%Z.
Qed.

Lemma binary_round_signless (m : positive) (e : Z) :
  signless (binary_round prec emax false m e) = true.
Proof.
  unfold binary_round. destruct (shl_align m e _) as [mz ez].
  apply binary_round_aux_signless.
Qed.

Lemma binary_round_opp (m : positive) (e : Z) :
  binary_round prec emax true m e = SFopp (binary_round prec emax false m e).
Proof.
  unfold binary_round. destruct (shl_align m e _) as [mz ez].
  apply (binary_round_aux_opp false).
Qed.

Lemma SFmul_self_signless (x : spec_float) :
  signless (SFmul prec emax x x) = true.
Proof.
  destruct x as [[]|[]| |[] m e]; try reflexivity;
    cbn [SFmul xorb]; apply binary_round_aux_signless.
Qed.

Lemma SFmul_opp_r (x : spec_float) :
  SFmul prec emax x (SFopp x) = SFopp (SFmul prec emax x x).
Proof.
  destruct x as [[]|[]| |[] m e]; try reflexivity;
    cbn [SFmul SFopp xorb negb]; apply (binary_round_aux_opp false).
Qed.

Lemma SFmul_opp_opp (x : spec_float) :
  SFmul prec emax (SFopp x) (SFopp x) = SFmul prec emax x x.
Proof. by destruct x as [[]|[]| |[] m e]. Qed.

Lemma SFadd_signless (x y : spec_float) :
  signless x = true -> signless y = true ->
  signless (SFadd prec emax x y) = true.
Proof.
  destruct x as [[]|[]| |[] mx ex], y as [[]|[]| |[] my ey];
    try discriminate; try reflexivity.
  intros _ _. cbn [SFadd cond_Zopp Z.add binary_normalize].
  apply binary_round_signless.
Qed.

Lemma SFadd_opp (x y : spec_float) :
  signless x = true -> signless y = true ->
  SFadd prec emax (SFopp x) (SFopp y) = SFopp (SFadd prec emax x y).
Proof.
  destruct x as [[]|[]| |[] mx ex], y as [[]|[]| |[] my ey];
    try discriminate; try reflexivity.
  intros _ _. cbn [SFadd SFopp negb cond_Zopp Z.add Z.opp binary_normalize].
  apply binary_round_opp.
Qed.

Lemma SFdiv_opp_l (x y : spec_float) :
  SFdiv prec emax (SFopp x) y = SFopp (SFdiv prec emax x y).
Proof.
  destruct x as [sx|sx| |sx mx ex], y as [sy|sy| |sy my ey];
    try reflexivity; cbn [SFdiv SFopp]; try (by destruct sx, sy).
  destruct (SFdiv_core_binary prec emax (Z.pos mx) ex (Z.pos my) ey)
    as [[mz ez] lz].
  destruct sx, sy; cbn [xorb negb];
    first [ apply (binary_round_aux_opp false)
          | apply (binary_round_aux_opp true) ].
Qed.

End Signs.

(** *** The similarity of a vector with itself and with its opposite *)

Lemma float_mul_comm (x y : float) : (x * y)%float = (y * x)%float.
Proof.
  apply Prim2SF_inj. rewrite !mul_spec. unfold SF64mul, SFmul.
  destruct (Prim2SF x) as [sx|sx| |sx mx ex], (Prim2SF y) as [sy|sy| |sy my ey];
    try reflexivity; rewrite ?(xorb_comm sy sx); try reflexivity.
  by rewrite (Pos.mul_comm my mx), (Z.add_comm ey ex).
Qed.

Lemma float_add_comm (x y : float) : (x + y)%float = (y + x)%float.
Proof.
  apply Prim2SF_inj. rewrite !add_spec. unfold SF64add, SFadd.
  destruct (Prim2SF x) as [[]|[]| |sx mx ex], (Prim2SF y) as [[]|[]| |sy my ey];
    try reflexivity.
  by rewrite (Z.min_comm ey ex), (Z.add_comm (cond_Zopp sy _)).
Qed.

Lemma float_square_signless (x : float) :
  signless (Prim2SF (x * x)) = true.
Proof. rewrite mul_spec. apply SFmul_self_signless. Qed.

Lemma float_add_signless (x y : float) :
  signless (Prim2SF x) = true -> signless (Prim2SF y) = true ->
  signless (Prim2SF (x + y)) = true.
Proof. rewrite add_spec. apply SFadd_signless. Qed.

Lemma float_add_opp (x y : float) :
  signless (Prim2SF x) = true -> signless (Prim2SF y) = true ->
  (- x + - y)%float = (- (x + y))%float.
Proof.
  intros Hx Hy. apply Prim2SF_inj.
  rewrite opp_spec, !add_spec, !opp_spec. by apply SFadd_opp.
Qed.

Lemma float_mul_opp_r (x : float) : (x * - x)%float = (- (x * x))%float.
Proof.
  apply Prim2SF_inj. rewrite opp_spec, !mul_spec, opp_spec.
  apply SFmul_opp_r.
Qed.

Lemma float_mul_opp_opp (x : float) : (- x * - x)%float = (x * x)%float.
Proof.
  apply Prim2SF_inj. rewrite !mul_spec, opp_spec. apply SFmul_opp_opp.
Qed.

Lemma float_div_opp_l (x y : float) : (- x / y)%float = (- (x / y))%float.
Proof.
  apply Prim2SF_inj. rewrite opp_spec, !div_spec, opp_spec.
  apply SFdiv_opp_l.
Qed.

Lemma float_add_zero (x : float) :
  signless (Prim2SF x) = true -> (x + 0)%float = x.
Proof.
  intros Hx. rewrite float_add_comm. apply float_zero_add.
  intros ->. discriminate Hx.
Qed.

(** [dot A A] adds the squares that [norm A] adds, in the same order and
    from the same start, so that the two sums are the same double. *)
Lemma squares_zip (A : list float) :
  forall c,
    fold_left (fun c ab => add c (mul ab.1 ab.2)) (zip A A) c
    = fold_left (fun n value => add (mul value value) n) A c.
Proof.
  induction A as [|a A IH]; intros c; [reflexivity|].
  cbn [zip zip_with fold_left fst snd]. rewrite IH. f_equal.
  apply float_add_comm.
Qed.

Lemma squares_zip_opposite (A : list float) :
  forall c,
    signless (Prim2SF c) = true ->
    fold_left (fun c ab => add c (mul ab.1 ab.2))
      (zip A (PrimFloat.opp <$> A)) (- c)%float
    = (- fold_left (fun n value => add (mul value value) n) A c)%float.
Proof.
  induction A as [|a A IH]; intros c Hc; [reflexivity|].
  rewrite fmap_cons. cbn [zip zip_with fold_left fst snd add mul floatArith].
  rewrite float_mul_opp_r, float_add_opp, (float_add_comm c)
    by (done || apply float_square_signless).
  apply IH. apply float_add_signless; [apply float_square_signless | done].
Qed.

Lemma dot_self (A : list float) : A <> [] -> dot A A = Ok (squaredNorm A).
Proof.
  destruct A as [|a0 A]; [done|]. intros _.
  rewrite dot_formula by reflexivity. f_equal. rewrite squares_zip.
  unfold squaredNorm. cbn [fold_left add mul zero floatArith].
  by rewrite float_add_zero by apply float_square_signless.
Qed.

Lemma dot_opposite (A : list float) :
  A <> [] -> dot A (PrimFloat.opp <$> A) = Ok (- squaredNorm A)%float.
Proof.
  destruct A as [|a0 A]; [done|]. intros _.
  rewrite fmap_cons, dot_formula by (by rewrite length_fmap). f_equal.
  cbn [mul floatArith]. rewrite float_mul_opp_r.
  rewrite squares_zip_opposite by apply float_square_signless.
  unfold squaredNorm. cbn [fold_left add mul zero floatArith].
  by rewrite float_add_zero by apply float_square_signless.
Qed.

Lemma squaredNorm_opposite (A : list float) :
  squaredNorm (PrimFloat.opp <$> A) = squaredNorm A.
Proof.
  unfold squaredNorm. generalize (@zero float _).
  induction A as [|a A IH]; intros c; [reflexivity|].
  rewrite fmap_cons. cbn [fold_left add mul floatArith].
  rewrite float_mul_opp_opp. apply IH.
Qed.

Lemma cosineSimilarity_self (A : list float) :
  A <> [] ->
  cosineSimilarity A A
  = Ok (squaredNorm A
        / (PrimFloat.sqrt (squaredNorm A)
           * PrimFloat.sqrt (squaredNorm A)))%float.
Proof. intros HA. unfold cosineSimilarity. by rewrite dot_self. Qed.

Lemma cosineSimilarity_opposite (A : list float) :
  A <> [] ->
  cosineSimilarity A (PrimFloat.opp <$> A)
  = Ok (- (squaredNorm A
           / (PrimFloat.sqrt (squaredNorm A)
              * PrimFloat.sqrt (squaredNorm A))))%float.
Proof.
  intros HA. unfold cosineSimilarity. rewrite dot_opposite by done.
  change (norm (PrimFloat.opp <$> A))
    with (PrimFloat.sqrt (squaredNorm (PrimFloat.opp <$> A))).
  rewrite squaredNorm_opposite. cbn [div mul floatArith].
  by rewrite float_div_opp_l.
Qed.

(** The doubles between [2^-1022] and [2^1019]. *)
Lemma float_in_range (s : float) :
  (0x1p-1022 <=? s)%float = true -> (s <=? 0x1p+1019)%float = true ->
  exists m e, Prim2SF s = S754_finite false m e /\ normal m e /\ (e <= 967)%Z.
Proof.
  rewrite !leb_spec. pose proof (Prim2SF_valid s) as Hvalid.
  change (Prim2SF 0x1p-1022) with (S754_finite false 4503599627370496 (-1074)).
  change (Prim2SF 0x1p+1019) with (S754_finite false 4503599627370496 967).
  destruct (Prim2SF s) as [[]|[]| |[] m e]; try discriminate.
  unfold SFleb, SFcompare. intros Hlo Hhi.
  cbn [SpecFloat.valid_binary] in Hvalid.
  unfold SpecFloat.bounded, canonical_mantissa in Hvalid.
  apply andb_prop in Hvalid as [Hc Hmax].
  apply Z.eqb_eq in Hc. apply Z.leb_le in Hmax.
  unfold fexp, SpecFloat.emin, prec, emax in Hc, Hmax.
  pose proof (digits2_pos_bounds m) as Hm.
  assert (e <= 967)%Z as He
    by (destruct (Z.compare_spec e 967); [lia | lia | discriminate Hhi]).
  exists m, e. split; [reflexivity|]. split; [|exact He].
  destruct (Z.compare_spec (-1074) e) as [<-|Hlt|Hgt];
    [| |discriminate Hlo].
  - assert (2 ^ 52 <= Z.pos m)%Z as Hfull.
    { change (2 ^ 52)%Z with (Z.pos 4503599627370496).
      rewrite Pos.compare_cont_spec in Hlo. cbn [Pos.switch_Eq] in Hlo.
      apply Pos2Z.pos_le_pos. intros Hgt. rewrite Hgt in Hlo.
      discriminate Hlo. }
    assert (Z.pos (digits2_pos m) = 53)%Z as Hd.
    { destruct (Z.le_gt_cases (Z.pos (digits2_pos m)) 52) as [Hle|]; [|lia].
      pose proof (Z.pow_le_mono_r 2 (Z.pos (digits2_pos m)) 52
                    ltac:(lia) Hle). lia. }
    rewrite Hd in Hm. split; [exact Hm | lia].
  - replace (Z.pos (digits2_pos m)) with 53%Z in Hm by lia.
    split; [exact Hm | lia].
Qed.

Lemma allBelow_spec (n : nat) (P : Z -> bool) :
  allBelow n P = true -> forall k, (0 <= k < Z.of_nat n)%Z -> P k = true.
Proof.
  induction n as [|n IH]; intros Hall k Hk; [lia|].
  cbn [allBelow] in Hall. apply andb_prop in Hall as [Hn Hall].
  destruct (Z.eq_dec k (Z.of_nat n)) as [->|Hne]; [exact Hn|].
  apply IH; [exact Hall | lia].
Qed.

(** Each of the doubles next to [1] is within the tolerance of [1], by
    evaluation. *)
Lemma nearOne_close (m : positive) (e : Z) :
  nearOne m e -> closeToOne (SF2Prim (S754_finite false m e)) = true.
Proof.
  intros [[-> Hm]|[-> Hm]]; rewrite <- (Pos2Z.id m).
  - replace (Z.pos m) with (2 ^ 52 + (Z.pos m - 2 ^ 52))%Z by lia.
    apply (allBelow_spec 17
             (fun k => closeToOne
                         (SF2Prim
                            (S754_finite false
                               (Z.to_pos (2 ^ 52 + k)) (-52)))));
      [by vm_compute | lia].
  - replace (Z.pos m) with (2 ^ 53 - 32 + (Z.pos m - (2 ^ 53 - 32)))%Z by lia.
    apply (allBelow_spec 32
             (fun k => closeToOne
                         (SF2Prim
                            (S754_finite false
                               (Z.to_pos (2 ^ 53 - 32 + k)) (-53)))));
      [by vm_compute | lia].
Qed.

Lemma selfRatio_close (s : float) :
  (0x1p-1022 <=? s)%float = true -> (s <=? 0x1p+1019)%float = true ->
  closeToOne (s / (PrimFloat.sqrt s * PrimFloat.sqrt s))%float = true.
Proof.
  intros Hlo Hhi.
  destruct (float_in_range s Hlo Hhi) as (m & e & Hs & Hnormal & He).
  destruct (ratio_nearOne m e Hnormal He) as (R & er & HR & Hnear).
  rewrite <- (SF2Prim_Prim2SF (s / _)), div_spec, mul_spec, sqrt_spec, Hs.
  unfold SF64div, SF64mul, SF64sqrt. rewrite HR.
  by apply nearOne_close.
Qed.

(** C7, as the code has it: [cosineSimilarity] is the dot product divided
    by the product of the two Euclidean norms, on doubles, and throws
    what [math.dot] throws. For every vector [A] of doubles whose squares
    add up, as [norm] adds them up, to a number between [2^-1022], the
    smallest normal double, and [2^1019], so that they neither underflow
    nor overflow, the similarity of [A] with itself is within [1e-9] of
    [1], and the similarity of [A] with its opposite is the exact
    opposite of that, within [1e-9] of [-1]. *)
Theorem cosineSimilarity_self_opposite :
  (forall A B : list float,
     cosineSimilarity A B
     = match dot A B with
       | Ok dotProduct => Ok (dotProduct / (norm A * norm B))%float
       | Throw e => Throw e
       end) /\
  (forall A : list float,
     (0x1p-1022 <=? squaredNorm A)%float = true ->
     (squaredNorm A <=? 0x1p+1019)%float = true ->
     exists s,
       cosineSimilarity A A = Ok s /\
       (abs (s - 1) <=? tolerance)%float = true /\
       cosineSimilarity A (PrimFloat.opp <$> A) = Ok (- s)%float /\
       (abs (- s + 1) <=? tolerance)%float = true).
Proof.
  split; [reflexivity|].
  intros A Hlo Hhi.
  assert (A <> []) as HA by (intros ->; discriminate Hlo).
  pose proof (selfRatio_close (squaredNorm A) Hlo Hhi) as Hclose.
  apply andb_prop in Hclose as [Hself Hopposite].
  eexists. split; [by apply cosineSimilarity_self|].
  split; [exact Hself|].
  split; [by apply cosineSimilarity_opposite | exact Hopposite].
Qed.

Lemma cosineSimilarity_self_opposite_witness :
  exists s,
    cosineSimilarity [1; 2]%float [1; 2]%float = Ok s /\
    (abs (s - 1) <=? tolerance)%float = true /\
    cosineSimilarity [1; 2]%float (PrimFloat.opp <$> [1; 2]%float)
    = Ok (- s)%float /\
    (abs (- s + 1) <=? tolerance)%float = true.
Proof.
  destruct cosineSimilarity_self_opposite as [_ Hself].
  apply (Hself [1; 2]%float); reflexivity.
Defined.

(** On doubles the squares of [2^700] overflow: the similarity of the
    vector [[2^700]] with itself is [NaN], which is within [1e-9] of
    nothing; the same happens with its opposite. *)
Lemma cosineSimilarity_overflow :
  ~ (forall A : list float,
       (exists x, x ∈ A /\ (x =? 0)%float = false) ->
       exists s t,
         cosineSimilarity A A = Ok s /\
         (abs (s - 1) <=? 0x1.12e0be826d695p-30)%float = true /\
         cosineSimilarity A (PrimFloat.opp <$> A) = Ok t /\
         (abs (t + 1) <=? 0x1.12e0be826d695p-30)%float = true).
Proof.
  intros Hall.
  destruct (Hall [0x1p+700%float]) as (s & t & Hs & Hclose & _).
  - exists 0x1p+700%float. split; [constructor | reflexivity].
  - vm_compute in Hs. injection Hs as <-.
    vm_compute in Hclose. discriminate Hclose.
Qed.

(** ** Bounded retry *)

Import TestResultsDatabaseService HttpUtils Orchestrator.

Lemma callsMade_app (l1 l2 : list Event) :
  callsMade (l1 ++ l2) = callsMade l1 + callsMade l2.
Proof. induction l1 as [|e l1 IH]; simpl; [reflexivity | rewrite IH; lia]. Qed.

Lemma callsMade_attempts (call : Event) (d : float) (failures : nat) :
  isExternalCall call = true -> callsMade (attempts call d failures) = S failures.
Proof.
  intros Hcall. induction failures as [|n IH]; simpl; rewrite Hcall.
  - reflexivity.
  - rewrite IH. lia.
Qed.

Lemma Forall_attempts (P : Event -> Prop) (call : Event) (d : float) (n : nat) :
  P call -> P (Wait d) -> Forall P (attempts call d n).
Proof. intros Hc Hw. induction n; simpl; repeat constructor; done. Qed.

Lemma retryLoop_success {A} (operation : M A) (remaining : nat) (d : float)
    (w w' : World) (a : A) :
  operation w = (Ok a, w') -> retryLoop operation remaining d w = (Ok a, w').
Proof. intros Hop. destruct remaining; simpl; by rewrite Hop. Qed.

Lemma retryLoop_retry {A} (operation : M A) (remaining : nat) (d : float)
    (w w' : World) (e : Exception) :
  operation w = (Throw e, w') ->
  retryLoop operation (S remaining) d w
  = retryLoop operation remaining d (record (Wait d) w').
Proof. intros Hop. simpl. by rewrite Hop. Qed.

Lemma retryLoop_last {A} (operation : M A) (d : float) (w w' : World)
    (e : Exception) :
  operation w = (Throw e, w') -> retryLoop operation 0 d w = (Throw e, w').
Proof. intros Hop. simpl. by rewrite Hop. Qed.

Section Requests.
Context {A : Type} (answer : nat -> Result A) (call : Event) (d : float).
Hypothesis call_counts : isExternalCall call = true.

(** A request retried: [f] failed attempts, each followed by the wait,
    then the attempt whose answer is the outcome, a success unless the
    attempts ran out. *)
Lemma retryLoop_request_at (f : nat) :
  forall (remaining : nat) (w : World),
    f <= remaining ->
    (forall i, i < f -> isOk (answer (callsMade (log w) + i)) = false) ->
    (f < remaining -> isOk (answer (callsMade (log w) + f)) = true) ->
    retryLoop (request answer call) remaining d w
    = (answer (callsMade (log w) + f),
       {| store := store w; log := log w ++ attempts call d f |}).
Proof.
  induction f as [|f IH]; intros remaining w Hle Hfail Hok.
  - rewrite Nat.add_0_r in *. destruct remaining as [|remaining].
    + simpl. by destruct (answer _).
    + specialize (Hok ltac:(lia)).
      destruct (answer (callsMade (log w))) as [a|e] eqn:Ha; [|done].
      apply retryLoop_success. unfold request. by rewrite Ha.
  - destruct remaining as [|remaining]; [lia|].
    pose proof (Hfail 0 ltac:(lia)) as H0. rewrite Nat.add_0_r in H0.
    destruct (answer (callsMade (log w))) as [a|e] eqn:Ha; [done|].
    rewrite (retryLoop_retry _ _ _ w (record call w) e)
      by (unfold request; by rewrite Ha).
    assert (callsMade (log (record (Wait d) (record call w)))
            = S (callsMade (log w))) as Hcalls.
    { simpl. rewrite !callsMade_app. simpl. rewrite call_counts. lia. }
    rewrite (IH remaining); rewrite ?Hcalls.
    + replace (S (callsMade (log w)) + f) with (callsMade (log w) + S f) by lia.
      simpl. by rewrite <- !app_assoc.
    + lia.
    + intros i Hi. replace (S (callsMade (log w)) + i)
        with (callsMade (log w) + S i) by lia. apply Hfail. lia.
    + intros Hlt. replace (S (callsMade (log w)) + f)
        with (callsMade (log w) + S f) by lia. apply Hok. lia.
Qed.

(** The number of failed attempts before the outcome exists. *)
Lemma failures_before_outcome (c remaining : nat) :
  exists f,
    f <= remaining /\
    (forall i, i < f -> isOk (answer (c + i)) = false) /\
    (f < remaining -> isOk (answer (c + f)) = true).
Proof.
  induction remaining as [|remaining (f & Hle & Hfail & Hok)].
  - exists 0. repeat split; intros; lia.
  - destruct (decide (f < remaining)) as [Hlt|Hge].
    + exists f. repeat split; [lia | exact Hfail | intros _; by apply Hok].
    + assert (f = remaining) as -> by lia.
      destruct (isOk (answer (c + remaining))) eqn:Hlast.
      * exists remaining. repeat split; [lia | exact Hfail | done].
      * exists (S remaining). repeat split; [lia | | lia].
        intros i Hi. destruct (decide (i = remaining)) as [->|]; [done|].
        apply Hfail. lia.
Qed.

Lemma retryLoop_request (remaining : nat) (w : World) :
  exists f,
    f <= remaining /\
    (forall i, i < f -> isOk (answer (callsMade (log w) + i)) = false) /\
    (f < remaining -> isOk (answer (callsMade (log w) + f)) = true) /\
    retryLoop (request answer call) remaining d w
    = (answer (callsMade (log w) + f),
       {| store := store w; log := log w ++ attempts call d f |}).
Proof.
  destruct (failures_before_outcome (callsMade (log w)) remaining)
    as (f & Hle & Hfail & Hok).
  exists f. repeat split; try done. by apply retryLoop_request_at.
Qed.

End Requests.

(** ** The pipeline *)

Section Pipeline.
Variable env : Environment.
Variables (prompt : PromptCandidate.t) (testCase : TestCase.t).
Variables (openaiModel embeddingsModelName : string).
Variables (temperature maxTokens : float).

(** A run of [runPromptTestCase] leaves the store alone and extends the
    log by the completion attempts followed by the embedding attempts;
    when it returns, the completions and both embedding sets were
    answers to three successive calls and the score was computed from
    those two sets. *)
Lemma runPromptTestCase_run (w : World) :
  exists r ext1 ext2,
    runPromptTestCase env prompt testCase openaiModel embeddingsModelName
      temperature maxTokens w
    = (r, {| store := store w; log := log w ++ ext1 ++ ext2 |}) /\
    Forall completionPhase ext1 /\
    Forall embeddingPhase ext2 /\
    forall completions s,
      r = Ok (completions, s) ->
      exists c1 c2 c3 gptEmbeddings goodEmbeddings,
        callsMade (log w) <= c1 /\ c1 < c2 /\ c2 < c3 /\
        c3 < callsMade (log w ++ ext1 ++ ext2) /\
        getGptCompletion env c1 (formatPrompt env prompt testCase)
          openaiModel temperature maxTokens = Ok completions /\
        embedTexts env c2 completions embeddingsModelName = Ok gptEmbeddings /\
        embedTexts env c3 (TestCase.goodCompletions testCase)
          embeddingsModelName = Ok goodEmbeddings /\
        score gptEmbeddings goodEmbeddings = Ok s.
Proof.
  unfold runPromptTestCase, bind, retryOnFailure, requestCompletion,
    requestEmbeddings.
  set (c := callsMade (log w)).
  destruct (retryLoop_request
              (fun n => getGptCompletion env n (formatPrompt env prompt testCase)
                          openaiModel temperature maxTokens)
              (CompletionCall (formatPrompt env prompt testCase) openaiModel
                 temperature maxTokens)
              OPENAI_WAIT_TIME_SECONDS eq_refl (OPENAI_MAX_RETRY - 1) w)
    as (f1 & _ & _ & _ & ->).
  fold c. set (ext1 := attempts _ _ f1).
  assert (Forall completionPhase ext1) as Hext1
    by (by apply Forall_attempts).
  assert (callsMade (log w ++ ext1) = c + S f1) as Hc1.
  { rewrite callsMade_app. unfold ext1. by rewrite callsMade_attempts. }
  destruct (getGptCompletion env (c + f1) _ _ _ _) as [completions|e] eqn:E1.
  2:{ exists (Throw e), ext1, []. rewrite app_nil_r.
      repeat split; [exact Hext1 | constructor | discriminate]. }
  set (w1 := {| store := store w; log := log w ++ ext1 |}).
  destruct (retryLoop_request
              (fun n => embedTexts env n completions embeddingsModelName)
              (EmbeddingCall completions embeddingsModelName)
              HUGGINGFACE_WAIT_TIME_SECONDS eq_refl
              (HUGGINGFACE_MAX_RETRY - 1) w1)
    as (f2 & _ & _ & _ & ->).
  cbn [log store w1]. rewrite Hc1. set (ext2 := attempts _ _ f2).
  assert (Forall embeddingPhase ext2) as Hext2
    by (by apply Forall_attempts).
  assert (callsMade ((log w ++ ext1) ++ ext2) = c + S f1 + S f2) as Hc2.
  { rewrite callsMade_app, Hc1. unfold ext2. by rewrite callsMade_attempts. }
  destruct (embedTexts env (c + S f1 + f2) completions _)
    as [gptEmbeddings|e] eqn:E2.
  2:{ exists (Throw e), ext1, ext2. rewrite <- app_assoc.
      repeat split; [exact Hext1 | exact Hext2 | discriminate]. }
  set (w2 := {| store := store w; log := (log w ++ ext1) ++ ext2 |}).
  destruct (retryLoop_request
              (fun n => embedTexts env n (TestCase.goodCompletions testCase)
                          embeddingsModelName)
              (EmbeddingCall (TestCase.goodCompletions testCase)
                 embeddingsModelName)
              HUGGINGFACE_WAIT_TIME_SECONDS eq_refl
              (HUGGINGFACE_MAX_RETRY - 1) w2)
    as (f3 & _ & _ & _ & ->).
  cbn [log store w2]. rewrite Hc2. set (ext3 := attempts _ _ f3).
  assert (Forall embeddingPhase ext3) as Hext3
    by (by apply Forall_attempts).
  assert (callsMade (log w ++ ext1 ++ ext2 ++ ext3)
          = c + S f1 + S f2 + S f3) as Hc3.
  { rewrite !app_assoc, callsMade_app, Hc2. unfold ext3.
    by rewrite callsMade_attempts. }
  assert ((((log w ++ ext1) ++ ext2) ++ ext3
           = log w ++ ext1 ++ ext2 ++ ext3)%list) as ->
    by (by rewrite <- !app_assoc).
  assert (Forall embeddingPhase (ext2 ++ ext3)) as Hext23
    by (by apply Forall_app).
  destruct (embedTexts env (c + S f1 + S f2 + f3) _ _)
    as [goodEmbeddings|e] eqn:E3.
  2:{ exists (Throw e), ext1, (ext2 ++ ext3).
      repeat split; [exact Hext1 | exact Hext23 | discriminate]. }
  unfold lift, ret.
  destruct (score gptEmbeddings goodEmbeddings) as [s|e] eqn:Es.
  2:{ exists (Throw e), ext1, (ext2 ++ ext3).
      repeat split; [exact Hext1 | exact Hext23 | discriminate]. }
  exists (Ok (completions, s)), ext1, (ext2 ++ ext3).
  repeat split; [exact Hext1 | exact Hext23 |].
  intros completions' s' [= <- <-].
  exists (c + f1), (c + S f1 + f2), (c + S f1 + S f2 + f3),
    gptEmbeddings, goodEmbeddings.
  rewrite Hc3. repeat split; try done; lia.
Qed.

End Pipeline.

(** ** The orchestrator *)

Lemma completionPhase_external (e : Event) :
  completionPhase e -> isStoreWrite e = false.
Proof. by destruct e. Qed.

Lemma embeddingPhase_external (e : Event) :
  embeddingPhase e -> isStoreWrite e = false.
Proof. by destruct e. Qed.

Lemma external_no_status (l : list Event) :
  Forall (fun e => isStoreWrite e = false) l -> omap statusWritten l = [].
Proof.
  induction 1 as [|e l He _ IH]; [reflexivity|].
  destruct e; try discriminate He; exact IH.
Qed.

Lemma external_no_save (l : list Event) :
  Forall (fun e => isStoreWrite e = false) l ->
  Forall (fun e => isResultSave e = false) l.
Proof. intros Hl. eapply Forall_impl; [exact Hl|]. by intros []. Qed.

Section Evaluation.
Variable env : Environment.
Variables (prompt : PromptCandidate.t) (testCase : TestCase.t).
Variable promptTestResults : PromptTestResults.t.
Variables (testCaseId runId : string).
Hypothesis testCase_id : presentId (TestCase.id testCase) = Some testCaseId.
Hypothesis run_id :
  presentId (PromptTestResults.id promptTestResults) = Some runId.

Local Abbreviation attempted w :=
  (attempt env prompt testCase promptTestResults runId testCaseId w).
Local Abbreviation inProgress :=
  (StatusWrite runId testCaseId IN_PROGRESS None).

(** With both identifiers present an evaluation returns normally; its
    log is the [IN_PROGRESS] write, the completion attempts, the
    embedding attempts and one terminal write, whose record is what the
    store holds under the key at the end; a score that reached the
    terminal write was computed from the answers to three successive
    calls. *)
Lemma processTestCase_trace (w : World) :
  exists ext1 ext2 w',
    processTestCase env prompt testCase promptTestResults w = (Ok tt, w') /\
    log w' = log w ++ [inProgress] ++ ext1 ++ ext2
               ++ [terminalWrite env runId testCaseId (attempted w).1] /\
    store w' !! (runId, testCaseId)
    = persisted (terminalWrite env runId testCaseId (attempted w).1) /\
    Forall completionPhase ext1 /\
    Forall embeddingPhase ext2 /\
    forall completions s,
      (attempted w).1 = Ok (completions, s) ->
      exists c1 c2 c3 gptEmbeddings goodEmbeddings,
        callsMade (log w) <= c1 /\ c1 < c2 /\ c2 < c3 /\
        c3 < callsMade (log w') /\
        getGptCompletion env c1 (formatPrompt env prompt testCase)
          (PromptTestResults.llmModel promptTestResults)
          (PromptTestResults.temperature promptTestResults)
          (PromptTestResults.maxTokens promptTestResults) = Ok completions /\
        embedTexts env c2 completions
          (PromptTestResults.embeddingsModel promptTestResults)
        = Ok gptEmbeddings /\
        embedTexts env c3 (TestCase.goodCompletions testCase)
          (PromptTestResults.embeddingsModel promptTestResults)
        = Ok goodEmbeddings /\
        score gptEmbeddings goodEmbeddings = Ok s.
Proof.
  unfold processTestCase. rewrite testCase_id, run_id.
  unfold bind at 1, tryCatch, bind.
  change (updateTestCaseResultStatus runId testCaseId IN_PROGRESS None w)
    with (Ok tt, started runId testCaseId w).
  cbv beta iota.
  change (runPromptTestCase env prompt testCase
            (PromptTestResults.llmModel promptTestResults)
            (PromptTestResults.embeddingsModel promptTestResults)
            (PromptTestResults.temperature promptTestResults)
            (PromptTestResults.maxTokens promptTestResults)
            (started runId testCaseId w))
    with (attempted w).
  destruct (runPromptTestCase_run env prompt testCase
              (PromptTestResults.llmModel promptTestResults)
              (PromptTestResults.embeddingsModel promptTestResults)
              (PromptTestResults.temperature promptTestResults)
              (PromptTestResults.maxTokens promptTestResults)
              (started runId testCaseId w))
    as (r & ext1 & ext2 & Hrun & Hext1 & Hext2 & Hdata).
  fold (attempted w) in Hrun. rewrite Hrun. cbn [fst snd].
  assert (callsMade (log (started runId testCaseId w)) = callsMade (log w))
    as Hcalls by (simpl; rewrite callsMade_app; simpl; lia).
  exists ext1, ext2.
  destruct r as [[completions s]|e]; cbn [fst snd terminalWrite].
  - destruct (Hdata completions s eq_refl)
      as (c1 & c2 & c3 & gptE & goodE & Hc1 & Hc12 & Hc23 & Hc3
          & Hgpt & HgptE & HgoodE & Hscore).
    rewrite Hcalls in Hc1.
    assert (forall final,
              c3 < callsMade (log w ++ [inProgress] ++ ext1 ++ ext2 ++ [final]))
      as Hbound.
    { intros final. cbn [started snd updateTestCaseResultStatus log] in Hc3.
      repeat rewrite callsMade_app in Hc3. repeat rewrite callsMade_app.
      change (callsMade [inProgress]) with 0 in Hc3 |- *. lia. }
    destruct (outOfRange s); eexists;
      (split; [reflexivity|]); cbn [log store started snd
        updateTestCaseResultStatus saveTestCaseResult throw];
      rewrite lookup_insert_eq, <- !app_assoc;
      (repeat split; try done);
      intros ? ? [= <- <-]; exists c1, c2, c3, gptE, goodE;
      (repeat split; try done); apply Hbound.
  - eexists. split; [reflexivity|].
    cbn [log store started snd updateTestCaseResultStatus].
    rewrite lookup_insert_eq, <- !app_assoc. by repeat split.
Qed.

Lemma terminalWrite_store (r : Result (list string * float)) :
  isStoreWrite (terminalWrite env runId testCaseId r) = true.
Proof. destruct r as [[completions s]|e]; simpl; [by destruct (outOfRange s) | done]. Qed.

Lemma terminalWrite_save (r : Result (list string * float)) (s : float)
    (completions : list string) (run tc : string) :
  terminalWrite env runId testCaseId r = ResultSave run tc s completions ->
  r = Ok (completions, s) /\ outOfRange s = false.
Proof.
  destruct r as [[completions' s']|e]; simpl; [|discriminate].
  destruct (outOfRange s') eqn:Hrange; [discriminate|].
  by intros [= _ _ <- <-].
Qed.

(** C8: with both identifiers present, the first thing an evaluation
    does is write [IN_PROGRESS]; every call to the completion service
    (and the waits between its attempts) comes next, every call to the
    embedding service after that, and one store write ends the log; a
    score that is saved was computed from two embedding sets that were
    both answers to calls made, in this order, after the call that
    returned the completions. *)
Theorem processTestCase_sequence (w : World) :
  exists ext1 ext2 final w',
    processTestCase env prompt testCase promptTestResults w = (Ok tt, w') /\
    log w' = log w ++ [inProgress] ++ ext1 ++ ext2 ++ [final] /\
    Forall completionPhase ext1 /\
    Forall embeddingPhase ext2 /\
    isStoreWrite final = true /\
    forall s completions,
      final = ResultSave runId testCaseId s completions ->
      exists c1 c2 c3 gptEmbeddings goodEmbeddings,
        callsMade (log w) <= c1 /\ c1 < c2 /\ c2 < c3 /\
        c3 < callsMade (log w') /\
        getGptCompletion env c1 (formatPrompt env prompt testCase)
          (PromptTestResults.llmModel promptTestResults)
          (PromptTestResults.temperature promptTestResults)
          (PromptTestResults.maxTokens promptTestResults) = Ok completions /\
        embedTexts env c2 completions
          (PromptTestResults.embeddingsModel promptTestResults)
        = Ok gptEmbeddings /\
        embedTexts env c3 (TestCase.goodCompletions testCase)
          (PromptTestResults.embeddingsModel promptTestResults)
        = Ok goodEmbeddings /\
        score gptEmbeddings goodEmbeddings = Ok s.
Proof.
  destruct (processTestCase_trace w)
    as (ext1 & ext2 & w' & Hout & Hlog & _ & Hext1 & Hext2 & Hdata).
  exists ext1, ext2, (terminalWrite env runId testCaseId (attempted w).1), w'.
  repeat split; try done.
  - apply terminalWrite_store.
  - intros s completions Hfinal.
    apply terminalWrite_save in Hfinal as [Hok _]. by apply Hdata.
Qed.

(** C9: with both identifiers present, the store writes of an
    evaluation are exactly two, both under the key (run id, test case
    id): [IN_PROGRESS] first and then one terminal status, [DONE] or
    [ERROR], which is the status the record has at the end. *)
Theorem processTestCase_one_transition (w : World) :
  exists ext terminal w',
    processTestCase env prompt testCase promptTestResults w = (Ok tt, w') /\
    log w' = log w ++ ext /\
    omap statusWritten ext
    = [(runId, testCaseId, IN_PROGRESS); (runId, testCaseId, terminal)] /\
    (terminal = DONE \/ terminal = ERROR) /\
    status <$> store w' !! (runId, testCaseId) = Some terminal.
Proof.
  destruct (processTestCase_trace w)
    as (ext1 & ext2 & w' & Hout & Hlog & Hstore & Hext1 & Hext2 & _).
  set (final := terminalWrite env runId testCaseId (attempted w).1) in *.
  assert (exists terminal,
             statusWritten final = Some (runId, testCaseId, terminal) /\
             (terminal = DONE \/ terminal = ERROR) /\
             status <$> persisted final = Some terminal)
    as (terminal & Hwritten & Hterminal & Hstatus).
  { unfold final. destruct (attempted w).1 as [[completions s]|e]; simpl.
    - destruct (outOfRange s); simpl; eauto.
    - eauto. }
  exists ([inProgress] ++ ext1 ++ ext2 ++ [final]), terminal, w'.
  repeat split; try done.
  - rewrite !omap_app.
    rewrite (external_no_status ext1), (external_no_status ext2).
    + simpl. by rewrite Hwritten.
    + eapply Forall_impl; [exact Hext2 | apply embeddingPhase_external].
    + eapply Forall_impl; [exact Hext1 | apply completionPhase_external].
  - by rewrite Hstore.
Qed.

(** C2: with both identifiers present, [processTestCase] returns
    normally whatever the services do. When the pipeline throws, in the
    completion attempts, the embedding attempts or the scoring, or when
    the score fails the range check, the record ends as [ERROR] with the
    message of the error (["unknown error"] for a thrown value that is
    not an [Error]), and the evaluation saved no result; otherwise the
    record ends as [DONE] with the score and the completions. *)
Theorem processTestCase_never_throws (w : World) :
  exists ext w',
    processTestCase env prompt testCase promptTestResults w = (Ok tt, w') /\
    log w' = log w ++ ext /\
    match (attempted w).1 with
    | Ok (completions, s) =>
        if outOfRange s then
          store w' !! (runId, testCaseId)
          = Some {| status := ERROR;
                    errorMessage := Some (describe (outOfRangeError env s));
                    cosineSimilarityScore := None; llmCompletions := None |} /\
          Forall (fun e => isResultSave e = false) ext
        else
          store w' !! (runId, testCaseId)
          = Some {| status := DONE; errorMessage := None;
                    cosineSimilarityScore := Some s;
                    llmCompletions := Some completions |}
    | Throw e =>
        store w' !! (runId, testCaseId)
        = Some {| status := ERROR; errorMessage := Some (describe e);
                  cosineSimilarityScore := None; llmCompletions := None |} /\
        Forall (fun e => isResultSave e = false) ext
    end.
Proof.
  destruct (processTestCase_trace w)
    as (ext1 & ext2 & w' & Hout & Hlog & Hstore & Hext1 & Hext2 & _).
  exists ([inProgress] ++ ext1 ++ ext2
          ++ [terminalWrite env runId testCaseId (attempted w).1]), w'.
  split; [exact Hout|]. split; [exact Hlog|].
  assert (Forall (fun e => isResultSave e = false) (ext1 ++ ext2)) as Hquiet.
  { apply external_no_save, Forall_app. split.
    - eapply Forall_impl; [exact Hext1 | apply completionPhase_external].
    - eapply Forall_impl; [exact Hext2 | apply embeddingPhase_external]. }
  apply Forall_app in Hquiet as [Hq1 Hq2].
  rewrite Hstore.
  destruct (attempted w).1 as [[completions s]|e]; simpl.
  - destruct (outOfRange s); simpl; [split; [reflexivity|] | reflexivity].
    constructor; [done|]. rewrite !Forall_app. by repeat split; repeat constructor.
  - split; [reflexivity|].
    constructor; [done|]. rewrite !Forall_app. by repeat split; repeat constructor.
Qed.

(** Whatever an evaluation saves has passed the range check. *)
Lemma processTestCase_saves_checked (w : World) :
  exists ext w',
    processTestCase env prompt testCase promptTestResults w = (Ok tt, w') /\
    log w' = log w ++ ext /\
    forall run tc s completions,
      ResultSave run tc s completions ∈ ext -> outOfRange s = false.
Proof.
  destruct (processTestCase_trace w)
    as (ext1 & ext2 & w' & Hout & Hlog & _ & Hext1 & Hext2 & _).
  exists ([inProgress] ++ ext1 ++ ext2
          ++ [terminalWrite env runId testCaseId (attempted w).1]), w'.
  split; [exact Hout|]. split; [exact Hlog|].
  intros run tc s completions Hin.
  rewrite !elem_of_app in Hin. destruct Hin as [Hin|[Hin|[Hin|Hin]]].
  - by apply list_elem_of_singleton in Hin.
  - rewrite Forall_forall in Hext1. by apply Hext1 in Hin.
  - rewrite Forall_forall in Hext2. by apply Hext2 in Hin.
  - apply list_elem_of_singleton in Hin. symmetry in Hin.
    by apply terminalWrite_save in Hin as [_ Hrange].
Qed.

End Evaluation.

Lemma processTestCase_sequence_witness :
  exists ext1 ext2 final w',
    processTestCase (Sample.steady [3; 4]%float) Sample.greeting Sample.alice
      Sample.run1 Sample.emptyWorld = (Ok tt, w') /\
    log w' = [StatusWrite "run1" "tc1" IN_PROGRESS None]
               ++ ext1 ++ ext2 ++ [final] /\
    Forall completionPhase ext1 /\
    Forall embeddingPhase ext2 /\
    isStoreWrite final = true.
Proof.
  destruct (processTestCase_sequence (Sample.steady [3; 4]%float)
              Sample.greeting Sample.alice Sample.run1 "tc1" "run1"
              eq_refl eq_refl Sample.emptyWorld)
    as (ext1 & ext2 & final & w' & Hout & Hlog & Hext1 & Hext2 & Hfinal & _).
  exists ext1, ext2, final, w'. repeat split; assumption.
Defined.

Lemma processTestCase_one_transition_witness :
  exists ext terminal w',
    processTestCase (Sample.flaky 2 3) Sample.greeting Sample.alice
      Sample.run1 Sample.emptyWorld = (Ok tt, w') /\
    log w' = ext /\
    omap statusWritten ext
    = [("run1", "tc1", IN_PROGRESS); ("run1", "tc1", terminal)] /\
    (terminal = DONE \/ terminal = ERROR) /\
    status <$> store w' !! ("run1", "tc1") = Some terminal.
Proof.
  apply (processTestCase_one_transition (Sample.flaky 2 3) Sample.greeting
           Sample.alice Sample.run1 "tc1" "run1" eq_refl eq_refl
           Sample.emptyWorld).
Defined.

Lemma processTestCase_never_throws_witness :
  exists ext w',
    processTestCase (Sample.flaky 4 4) Sample.greeting Sample.alice
      Sample.run1 Sample.emptyWorld = (Ok tt, w') /\
    log w' = ext /\
    store w' !! ("run1", "tc1")
    = Some {| status := ERROR; errorMessage := Some "APIError: 429";
              cosineSimilarityScore := None; llmCompletions := None |} /\
    Forall (fun e => isResultSave e = false) ext.
Proof.
  apply (processTestCase_never_throws (Sample.flaky 4 4) Sample.greeting
           Sample.alice Sample.run1 "tc1" "run1" eq_refl eq_refl
           Sample.emptyWorld).
Defined.

(** C3: when the test case or the run record has no identifier to use
    as a key ([undefined] or the empty string), [processTestCase] throws
    the precondition error at once and leaves the world as it found it:
    no store write and no service call is made. *)
Theorem processTestCase_missing_id (env : Environment)
    (prompt : PromptCandidate.t) (testCase : TestCase.t)
    (promptTestResults : PromptTestResults.t) (w : World) :
  presentId (TestCase.id testCase) = None \/
  presentId (PromptTestResults.id promptTestResults) = None ->
  exists message,
    processTestCase env prompt testCase promptTestResults w
    = (Throw (JsError "Error" message), w) /\
    (message = "Test case id is missing" \/
     message = "Prompt test results id is missing").
Proof.
  intros Hmissing. unfold processTestCase.
  destruct (presentId (TestCase.id testCase)) as [testCaseId|].
  - destruct (presentId (PromptTestResults.id promptTestResults)) as [runId|].
    + by destruct Hmissing.
    + eexists. split; [reflexivity | by right].
  - eexists. split; [reflexivity | by left].
Qed.

Lemma presentId_None (x : option string) :
  presentId x = None <-> x = None \/ x = Some "".
Proof.
  destruct x as [s|]; simpl.
  - destruct (String.eqb_spec s "") as [->|Hne].
    + split; [by right | done].
    + split; [done | by intros [|[= ->]]].
  - split; [by left | done].
Qed.

Lemma processTestCase_missing_id_witness :
  exists message,
    processTestCase (Sample.steady [3; 4]%float) Sample.greeting
      (Sample.withId None Sample.alice) Sample.run1 Sample.emptyWorld
    = (Throw (JsError "Error" message), Sample.emptyWorld) /\
    (message = "Test case id is missing" \/
     message = "Prompt test results id is missing").
Proof.
  apply (processTestCase_missing_id (Sample.steady [3; 4]%float)
           Sample.greeting (Sample.withId None Sample.alice) Sample.run1
           Sample.emptyWorld).
  left. reflexivity.
Defined.

(** ** Retries in the pipeline *)

Lemma retryOnFailure_request {A} (answer : nat -> Result A) (call : Event)
    (d : float) (n f c : nat) (w : World) :
  isExternalCall call = true ->
  callsMade (log w) = c ->
  f < n ->
  (forall i, i < f -> isOk (answer (c + i)) = false) ->
  (S f < n -> isOk (answer (c + f)) = true) ->
  retryOnFailure (request answer call) n d w
  = (answer (c + f),
     {| store := store w; log := log w ++ attempts call d f |}).
Proof.
  intros Hcall <- Hlt Hfail Hok. unfold retryOnFailure.
  apply retryLoop_request_at; [exact Hcall | lia | exact Hfail |].
  intros Hf. apply Hok. lia.
Qed.

Section PipelineRetries.
Variable env : Environment.
Variables (prompt : PromptCandidate.t) (testCase : TestCase.t).
Variables (openaiModel embeddingsModelName : string).
Variables (temperature maxTokens : float).
Variable w : World.

Local Abbreviation completionCall :=
  (CompletionCall (formatPrompt env prompt testCase) openaiModel temperature
     maxTokens).
Local Abbreviation completionAt n :=
  (getGptCompletion env n (formatPrompt env prompt testCase) openaiModel
     temperature maxTokens).
Local Abbreviation run :=
  (runPromptTestCase env prompt testCase openaiModel embeddingsModelName
     temperature maxTokens w).

Lemma runPromptTestCase_completion_exhausted :
  (forall i, i < 4 -> isOk (completionAt (callsMade (log w) + i)) = false) ->
  exists e,
    completionAt (callsMade (log w) + 3) = Throw e /\
    run = (Throw e,
           {| store := store w;
              log := log w ++ [completionCall; Wait 5; completionCall; Wait 5;
                               completionCall; Wait 5; completionCall] |}).
Proof.
  intros Hfail. unfold runPromptTestCase, bind, requestCompletion.
  rewrite (retryOnFailure_request _ _ _ OPENAI_MAX_RETRY 3 (callsMade (log w)))
    by (try done; try (unfold OPENAI_MAX_RETRY; lia);
        intros; apply Hfail; lia).
  specialize (Hfail 3 ltac:(lia)).
  destruct (completionAt (callsMade (log w) + 3)) as [?|e]; [done|].
  by exists e.
Qed.

Lemma runPromptTestCase_embedding_exhausted (completions : list string) :
  completionAt (callsMade (log w)) = Ok completions ->
  (forall i, i < 4 ->
     isOk (embedTexts env (callsMade (log w) + 1 + i) completions
             embeddingsModelName) = false) ->
  exists e,
    embedTexts env (callsMade (log w) + 1 + 3) completions embeddingsModelName
    = Throw e /\
    run = (Throw e,
           {| store := store w;
              log := log w
                ++ [completionCall;
                    EmbeddingCall completions embeddingsModelName; Wait 5;
                    EmbeddingCall completions embeddingsModelName; Wait 5;
                    EmbeddingCall completions embeddingsModelName; Wait 5;
                    EmbeddingCall completions embeddingsModelName] |}).
Proof.
  intros Hgpt Hfail.
  unfold runPromptTestCase, bind, requestCompletion, requestEmbeddings.
  rewrite (retryOnFailure_request _ _ _ OPENAI_MAX_RETRY 0 (callsMade (log w)))
    by (try done; try (unfold OPENAI_MAX_RETRY; lia);
        intros; rewrite Nat.add_0_r, Hgpt; done).
  rewrite Nat.add_0_r, Hgpt.
  rewrite (retryOnFailure_request _ _ _ HUGGINGFACE_MAX_RETRY 3
             (callsMade (log w) + 1))
    by (try done; try (unfold HUGGINGFACE_MAX_RETRY; lia);
        try (simpl; rewrite callsMade_app; reflexivity);
        intros; apply Hfail; lia).
  specialize (Hfail 3 ltac:(lia)).
  destruct (embedTexts env (callsMade (log w) + 1 + 3) _ _) as [?|e]; [done|].
  exists e. split; [reflexivity|]. simpl. by rewrite <- app_assoc.
Qed.

Lemma runPromptTestCase_reference_exhausted (completions : list string)
    (gptEmbeddings : list (list float)) :
  completionAt (callsMade (log w)) = Ok completions ->
  embedTexts env (callsMade (log w) + 1) completions embeddingsModelName
  = Ok gptEmbeddings ->
  (forall i, i < 4 ->
     isOk (embedTexts env (callsMade (log w) + 2 + i)
             (TestCase.goodCompletions testCase) embeddingsModelName) = false) ->
  exists e,
    embedTexts env (callsMade (log w) + 2 + 3)
      (TestCase.goodCompletions testCase) embeddingsModelName = Throw e /\
    run = (Throw e,
           {| store := store w;
              log := log w
                ++ [completionCall;
                    EmbeddingCall completions embeddingsModelName;
                    EmbeddingCall (TestCase.goodCompletions testCase)
                      embeddingsModelName; Wait 5;
                    EmbeddingCall (TestCase.goodCompletions testCase)
                      embeddingsModelName; Wait 5;
                    EmbeddingCall (TestCase.goodCompletions testCase)
                      embeddingsModelName; Wait 5;
                    EmbeddingCall (TestCase.goodCompletions testCase)
                      embeddingsModelName] |}).
Proof.
  intros Hgpt Hemb Hfail.
  unfold runPromptTestCase, bind, requestCompletion, requestEmbeddings.
  rewrite (retryOnFailure_request _ _ _ OPENAI_MAX_RETRY 0 (callsMade (log w)))
    by (try done; try (unfold OPENAI_MAX_RETRY; lia);
        intros; rewrite Nat.add_0_r, Hgpt; done).
  rewrite Nat.add_0_r, Hgpt.
  rewrite (retryOnFailure_request _ _ _ HUGGINGFACE_MAX_RETRY 0
             (callsMade (log w) + 1))
    by (try done; try (unfold HUGGINGFACE_MAX_RETRY; lia);
        try (simpl; rewrite callsMade_app; reflexivity);
        intros; rewrite Nat.add_0_r, Hemb; done).
  rewrite Nat.add_0_r, Hemb.
  rewrite (retryOnFailure_request _ _ _ HUGGINGFACE_MAX_RETRY 3
             (callsMade (log w) + 2))
    by (try done; try (unfold HUGGINGFACE_MAX_RETRY; lia);
        try (simpl; rewrite !callsMade_app; simpl; lia);
        intros; apply Hfail; lia).
  specialize (Hfail 3 ltac:(lia)).
  destruct (embedTexts env (callsMade (log w) + 2 + 3) _ _) as [?|e]; [done|].
  exists e. split; [reflexivity|]. simpl. by rewrite <- !app_assoc.
Qed.

End PipelineRetries.

(** C4: [retryOnFailure] returns the result of the first attempt that
    succeeds, with nothing done after it; a failed attempt with
    attempts left is followed by the fixed wait and by the remaining
    attempts, whatever was thrown; the failure of the last attempt is
    re-thrown as it is. For a service request this makes [f] failed
    attempts, [f] waits and the attempt that decides, at most
    [maxAttempts] in all. [runPromptTestCase] wraps the completion
    request, the embedding of the completions and the embedding of the
    reference completions each with four attempts five seconds apart. *)
Theorem retryOnFailure_bounded :
  (forall (A : Type) (operation : M A) (n : nat) (d : float) (w w' : World)
          (a : A),
     operation w = (Ok a, w') ->
     retryOnFailure operation n d w = (Ok a, w')) /\
  (forall (A : Type) (operation : M A) (n : nat) (d : float) (w w' : World)
          (e : Exception),
     operation w = (Throw e, w') -> 1 < n ->
     retryOnFailure operation n d w
     = retryOnFailure operation (n - 1) d (record (Wait d) w')) /\
  (forall (A : Type) (operation : M A) (n : nat) (d : float) (w w' : World)
          (e : Exception),
     operation w = (Throw e, w') -> n <= 1 ->
     retryOnFailure operation n d w = (Throw e, w')) /\
  (forall (A : Type) (answer : nat -> Result A) (call : Event) (d : float)
          (n f : nat) (w : World),
     isExternalCall call = true ->
     f < n ->
     (forall i, i < f -> isOk (answer (callsMade (log w) + i)) = false) ->
     (S f < n -> isOk (answer (callsMade (log w) + f)) = true) ->
     retryOnFailure (request answer call) n d w
     = (answer (callsMade (log w) + f),
        {| store := store w; log := log w ++ attempts call d f |})) /\
  (forall env prompt testCase openaiModel embeddingsModelName temperature
          maxTokens w,
     let completionCall :=
       CompletionCall (formatPrompt env prompt testCase) openaiModel
         temperature maxTokens in
     let completionAt n :=
       getGptCompletion env n (formatPrompt env prompt testCase) openaiModel
         temperature maxTokens in
     let embeddingAt n texts := embedTexts env n texts embeddingsModelName in
     let good := TestCase.goodCompletions testCase in
     let run :=
       runPromptTestCase env prompt testCase openaiModel embeddingsModelName
         temperature maxTokens w in
     let c := callsMade (log w) in
     ((forall i, i < 4 -> isOk (completionAt (c + i)) = false) ->
      exists e,
        completionAt (c + 3) = Throw e /\
        run = (Throw e,
               {| store := store w;
                  log := log w
                    ++ [completionCall; Wait 5; completionCall; Wait 5;
                        completionCall; Wait 5; completionCall] |})) /\
     (forall completions,
        completionAt c = Ok completions ->
        (forall i, i < 4 ->
           isOk (embeddingAt (c + 1 + i) completions) = false) ->
        exists e,
          embeddingAt (c + 1 + 3) completions = Throw e /\
          run = (Throw e,
                 {| store := store w;
                    log := log w
                      ++ [completionCall;
                          EmbeddingCall completions embeddingsModelName; Wait 5;
                          EmbeddingCall completions embeddingsModelName; Wait 5;
                          EmbeddingCall completions embeddingsModelName; Wait 5;
                          EmbeddingCall completions embeddingsModelName] |})) /\
     (forall completions gptEmbeddings,
        completionAt c = Ok completions ->
        embeddingAt (c + 1) completions = Ok gptEmbeddings ->
        (forall i, i < 4 -> isOk (embeddingAt (c + 2 + i) good) = false) ->
        exists e,
          embeddingAt (c + 2 + 3) good = Throw e /\
          run = (Throw e,
                 {| store := store w;
                    log := log w
                      ++ [completionCall;
                          EmbeddingCall completions embeddingsModelName;
                          EmbeddingCall good embeddingsModelName; Wait 5;
                          EmbeddingCall good embeddingsModelName; Wait 5;
                          EmbeddingCall good embeddingsModelName; Wait 5;
                          EmbeddingCall good embeddingsModelName] |}))).
Proof.
  split; [|split; [|split; [|split]]].
  - intros A operation n d w w' a Hop. by apply retryLoop_success.
  - intros A operation n d w w' e Hop Hn. unfold retryOnFailure.
    destruct n as [|[|n]]; [lia | lia |].
    replace (S (S n) - 1) with (S n) by lia.
    replace (S n - 1) with n by lia. by apply (retryLoop_retry _ _ _ w w' e).
  - intros A operation n d w w' e Hop Hn. unfold retryOnFailure.
    replace (n - 1) with 0 by lia. by apply retryLoop_last.
  - intros A answer call d n f w Hcall Hlt Hfail Hok.
    by apply retryOnFailure_request.
  - intros env prompt testCase openaiModel embeddingsModelName temperature
      maxTokens w completionCall completionAt embeddingAt good run c.
    split; [|split].
    + apply runPromptTestCase_completion_exhausted.
    + apply runPromptTestCase_embedding_exhausted.
    + apply runPromptTestCase_reference_exhausted.
Qed.

(** An operation that fails twice and then succeeds, given four
    attempts: three invocations, two waits, the result of the third. *)
Lemma retryOnFailure_bounded_witness :
  retryOnFailure
    (request (fun n => if (n <? 2)%nat then Throw (NonError "busy") else Ok n)
       (EmbeddingCall [] "emb"))
    4 0 Sample.emptyWorld
  = (Ok 2,
     {| store := ∅;
        log := [EmbeddingCall [] "emb"; Wait 0; EmbeddingCall [] "emb"; Wait 0;
                EmbeddingCall [] "emb"] |}).
Proof.
  destruct retryOnFailure_bounded as (_ & _ & _ & Hcount & _).
  apply (Hcount nat
           (fun n => if (n <? 2)%nat then Throw (NonError "busy") else Ok n)
           (EmbeddingCall [] "emb") 0%float 4 2 Sample.emptyWorld).
  - reflexivity.
  - lia.
  - intros [|[|i]] Hi; [reflexivity | reflexivity | lia].
  - intros _. reflexivity.
Defined.

(** ** The range check *)

(** C1, where the code departs from it: when both averaged embeddings
    are the zero vector the similarity is [0 / (0 * 0)], which is [NaN];
    [NaN] is neither above [1] nor below [-1], so the range check lets it
    through and the evaluation saves it as the score of a [DONE] record,
    with no [ERROR] write. *)
Theorem processTestCase_saves_NaN :
  let out :=
    processTestCase (Sample.steady [0; 0]%float) Sample.greeting Sample.alice
      Sample.run1 Sample.emptyWorld in
  out.1 = Ok tt /\
  log out.2
  = [ StatusWrite "run1" "tc1" IN_PROGRESS None;
      CompletionCall "Hi Alice, age 5: water" "gpt" 1 50;
      EmbeddingCall ["I need water"] "emb";
      EmbeddingCall ["I want water"] "emb";
      ResultSave "run1" "tc1" nan ["I need water"] ] /\
  store out.2 !! ("run1", "tc1")
  = Some {| status := DONE; errorMessage := None;
            cosineSimilarityScore := Some nan;
            llmCompletions := Some ["I need water"] |} /\
  cosineSimilarity [0; 0]%float [0; 0]%float = Ok nan /\
  outOfRange nan = false /\
  ((-1 <=? nan)%float && (nan <=? 1)%float) = false.
Proof. vm_compute. repeat split. Qed.

(** The check does catch the infinities, and a score that rounding
    carries just past one: the vector [[1, 1, 1]] against itself scores
    [3 / (sqrt 3 * sqrt 3)], the first double above [1], and the
    evaluation ends as [ERROR]. *)
Lemma outOfRange_examples :
  outOfRange infinity = true /\
  outOfRange neg_infinity = true /\
  cosineSimilarity [1; 1; 1]%float [1; 1; 1]%float
  = Ok 0x1.0000000000001p+0%float /\
  status <$>
    store (processTestCase (Sample.steady [1; 1; 1]%float) Sample.greeting
             Sample.alice Sample.run1 Sample.emptyWorld).2
    !! ("run1", "tc1")
  = Some ERROR.
Proof. vm_compute. repeat split. Qed.

(** ** The [isTestCase] guard *)

Import Js Types.

(** On a test case whose age is zero the guard evaluates to that zero,
    which is not the boolean [false]. *)
Lemma isTestCase_age_zero :
  isTestCase (toValue (Sample.withAge 0 Sample.alice)) = Ok (Number 0) /\
  isTestCase (toValue (Sample.withAge 0 Sample.alice)) <> Ok (Boolean false).
Proof. split; [reflexivity | discriminate]. Qed.

Ltac split_string s :=
  destruct s as [|? ?]; cbn [String.eqb negb andb orb toBoolean Js.and].

(** C10, as the code has it: on a well-typed test case whose age is zero
    or one of whose tone, setting, conversation type, name, about-me and
    utterance is the empty string, [isTestCase] evaluates to a falsy
    value, the zero or the empty string itself and never the boolean
    [false]; on one whose fields are all truthy and whose
    [goodCompletions] is the empty array it evaluates to that array,
    which is truthy. *)
Theorem isTestCase_falsy_fields (testCase : TestCase.t) :
  ((Bio.age (TestCase.bio testCase) =? 0)%float = true \/
   Context.tone (TestCase.context testCase) = "" \/
   Context.setting (TestCase.context testCase) = "" \/
   Context.conversationType (TestCase.context testCase) = "" \/
   Bio.name (TestCase.bio testCase) = "" \/
   Bio.aboutMe (TestCase.bio testCase) = "" \/
   TestCase.utterance testCase = "" ->
   exists v,
     isTestCase (toValue testCase) = Ok v /\
     toBoolean v = false /\
     v <> Boolean false /\
     (v = Str "" \/ v = Number (Bio.age (TestCase.bio testCase)))) /\
  (toBoolean (Number (Bio.age (TestCase.bio testCase))) = true ->
   Context.tone (TestCase.context testCase) <> "" ->
   Context.setting (TestCase.context testCase) <> "" ->
   Context.conversationType (TestCase.context testCase) <> "" ->
   Bio.name (TestCase.bio testCase) <> "" ->
   Bio.aboutMe (TestCase.bio testCase) <> "" ->
   TestCase.utterance testCase <> "" ->
   TestCase.goodCompletions testCase = [] ->
   isTestCase (toValue testCase) = Ok (Array []) /\
   toBoolean (Array []) = true).
Proof.
  destruct testCase as [id [tone setting conversationType] [name age aboutMe]
                          utterance goodCompletions].
  cbn [TestCase.bio TestCase.context TestCase.utterance
       TestCase.goodCompletions Bio.age Bio.name Bio.aboutMe Context.tone
       Context.setting Context.conversationType].
  assert (forall tail,
            isTestCase
              (Object
                 (match id with Some i => [("id", Str i)] | None => [] end
                  ++ tail))
            = isTestCase (Object tail)) as Hid.
  { intros tail. by destruct id. }
  unfold toValue.
  cbn [TestCase.id TestCase.bio TestCase.context TestCase.utterance
       TestCase.goodCompletions Bio.age Bio.name Bio.aboutMe Context.tone
       Context.setting Context.conversationType].
  rewrite Hid. clear Hid. unfold isTestCase, get2, get. cbn [property String.eqb Ascii.eqb Bool.eqb].
  cbn [Js.and toBoolean]. split.
  - intros Hfalsy.
    split_string tone;
      [eexists; split; [reflexivity|]; repeat split; [done | by left]|].
    split_string setting;
      [eexists; split; [reflexivity|]; repeat split; [done | by left]|].
    split_string conversationType;
      [eexists; split; [reflexivity|]; repeat split; [done | by left]|].
    split_string name;
      [eexists; split; [reflexivity|]; repeat split; [done | by left]|].
    destruct ((age =? 0)%float || is_nan age) eqn:Hage;
      repeat (cbn [negb Js.and toBoolean]; rewrite ?Hage);
      [eexists; split; [reflexivity|]; cbn [toBoolean]; rewrite Hage;
       repeat split; [done | by right]|].
    split_string aboutMe;
      [eexists; split; [reflexivity|]; repeat split; [done | by left]|].
    split_string utterance;
      [eexists; split; [reflexivity|]; repeat split; [done | by left]|].
    apply orb_false_elim in Hage as [Hzero _].
    destruct Hfalsy as [H|[H|[H|[H|[H|[H|H]]]]]];
      [by rewrite Hzero in H | done ..].
  - intros Hage Htone Hsetting Hconversation Hname Habout Hutterance ->.
    cbn [toBoolean] in Hage.
    split_string tone; [done|]. split_string setting; [done|].
    split_string conversationType; [done|]. split_string name; [done|].
    rewrite Hage. split_string aboutMe; [done|].
    split_string utterance; [done|]. done.
Qed.

Lemma isTestCase_falsy_fields_witness :
  (exists v,
     isTestCase (toValue (Sample.withAge 0 Sample.alice)) = Ok v /\
     toBoolean v = false /\
     v <> Boolean false /\
     (v = Str "" \/ v = Number 0)) /\
  isTestCase (toValue (Sample.withGoodCompletions [] Sample.alice))
  = Ok (Array []).
Proof.
  split.
  - apply (isTestCase_falsy_fields (Sample.withAge 0 Sample.alice)).
    left. reflexivity.
  - apply (isTestCase_falsy_fields
             (Sample.withGoodCompletions [] Sample.alice));
      [reflexivity | discriminate ..| reflexivity].
Defined.

(** * Further properties *)

Import Further.

(** ** Splitting and joining *)

Lemma join_empty_glue (p : string) (ps : list string) :
  join (p :: ps) "" = p +:+ join ps "".
Proof. destruct ps; [by rewrite app_empty_r | reflexivity]. Qed.

Lemma prefix_app_inv (key : string) :
  forall s, String.prefix key s = true -> exists rest, s = key +:+ rest.
Proof.
  induction key as [|c key IH]; intros s Hpre.
  - by exists s.
  - destruct s as [|c' s]; [discriminate|]. simpl in Hpre.
    destruct (Ascii.ascii_dec c c') as [<-|]; [|discriminate].
    destruct (IH s Hpre) as (rest & ->). by exists rest.
Qed.

Lemma app_length (a b : string) :
  String.length (a +:+ b) = String.length a + String.length b.
Proof.
  induction a as [|c a IH]; [reflexivity|]. rewrite app_cons. simpl. by rewrite IH.
Qed.

Lemma join_splitFrom (k : Ascii.ascii) (key : string) (n : nat) :
  forall s piece,
    String.length s <= n ->
    join (splitFrom (String k key) 0 piece s) (String k key) = piece +:+ s.
Proof.
  induction n as [|n IH]; intros s piece Hlen.
  - destruct s; [|simpl in Hlen; lia]. simpl. by rewrite app_empty_r.
  - destruct s as [|c s]; [simpl; by rewrite app_empty_r|].
    cbn [splitFrom].
    destruct (String.prefix (String k key) (String c s)) eqn:Hpre.
    + apply prefix_app_inv in Hpre as (rest & Hs).
      rewrite app_cons in Hs. injection Hs as -> ->.
      replace (String.length (String k key) - 1) with (String.length key)
        by (simpl; lia).
      rewrite splitFrom_skip, join_cons by apply splitFrom_nonempty.
      rewrite IH.
      * reflexivity.
      * simpl in Hlen. rewrite app_length in Hlen. lia.
    + rewrite IH by (simpl in Hlen; lia). by rewrite app_assoc'.
Qed.

Lemma join_characters (s : string) : join (characters s) "" = s.
Proof.
  induction s as [|c s IH]; [reflexivity|]. cbn [characters].
  destruct (characters s) as [|piece pieces] eqn:Hs.
  - destruct s as [|c' s]; [reflexivity|]. cbn [characters] in Hs.
    by destruct (characters s), (continues s).
  - destruct (continues s).
    + rewrite join_empty_glue, app_cons. rewrite join_empty_glue in IH.
      by rewrite IH.
    + rewrite join_empty_glue, IH. reflexivity.
Qed.

(** X1: splitting a string on a separator and joining the pieces with
    the same separator gives the string back, for every string and every
    separator, the empty one included; so replacing a token by itself
    changes nothing. *)
Theorem split_join_roundtrip (s separator : string) :
  join (split s separator) separator = s /\
  replaceAll s separator separator = s.
Proof.
  assert (join (split s separator) separator = s) as Hround.
  { destruct separator as [|k key].
    - apply join_characters.
    - unfold split. by rewrite (join_splitFrom k key (String.length s)). }
  split; [exact Hround | exact Hround].
Qed.

Lemma replaceMultiple_untouched (replacements : list (string * string)) :
  forall s, untouchedBy replacements s = true ->
            replaceMultiple s replacements = s.
Proof.
  induction replacements as [|[key value] rest IH]; intros s Hfree;
    [reflexivity|].
  cbn [untouchedBy forallb fst] in Hfree.
  apply andb_prop in Hfree as [Hhere Hrest].
  apply andb_prop in Hhere as [Hkey Hocc].
  rewrite replaceMultiple_cons, replaceAll_absent.
  - by apply IH.
  - intros ->. discriminate Hkey.
  - by destruct (matchesWithin key s "").
Qed.

(** X2: a template in which no token occurs comes out of
    [replaceMultiple] unchanged, whatever the values are; in particular
    a prompt without any of the seven placeholders is sent to the
    completion service as it is. *)
Theorem formatPrompt_without_tokens (env : Environment)
    (prompt : PromptCandidate.t) (testCase : TestCase.t)
    (replacements : list (string * string)) (s : string) :
  untouchedBy replacements s = true ->
  untouchedBy ((fun k => (k, "")) <$> promptTokens)
    (PromptCandidate.prompt prompt) = true ->
  replaceMultiple s replacements = s /\
  formatPrompt env prompt testCase = PromptCandidate.prompt prompt.
Proof.
  intros Hs Hprompt. split; [by apply replaceMultiple_untouched|].
  unfold formatPrompt. apply replaceMultiple_untouched.
  revert Hprompt. unfold untouchedBy, promptTokens.
  cbn [fmap list_fmap forallb fst]. intros Hprompt. exact Hprompt.
Qed.

Lemma formatPrompt_without_tokens_witness :
  replaceMultiple "plain text" [("{a}", "1"); ("{b}", "2")] = "plain text" /\
  formatPrompt (Sample.steady [])
    {| PromptCandidate.id := None; PromptCandidate.prompt := "Say hello." |}
    Sample.alice
  = "Say hello.".
Proof.
  apply (formatPrompt_without_tokens (Sample.steady [])
           {| PromptCandidate.id := None;
              PromptCandidate.prompt := "Say hello." |}
           Sample.alice [("{a}", "1"); ("{b}", "2")] "plain text");
    reflexivity.
Defined.

Lemma replaceAll_empty_template (key value : string) :
  replaceAll "" key value = "".
Proof. by destruct key. Qed.

(** X3: the empty template expands to the empty string, whatever the
    tokens and values are, an empty token included. *)
Theorem replaceMultiple_empty_template (replacements : list (string * string)) :
  replaceMultiple "" replacements = "".
Proof.
  induction replacements as [|[key value] rest IH]; [reflexivity|].
  by rewrite replaceMultiple_cons, replaceAll_empty_template.
Qed.



(** ** Shapes and guards of the scorer *)

Section ScoringShapes.
Context {T : Type} `{Arith T}.

(** X5: [averageOfVectors] throws the [TypeError] exactly on the empty
    sequence; on any other, ragged ones included, it returns a vector as
    long as the first one. *)
Theorem averageOfVectors_shape (vectors : list (list T)) :
  match vectors with
  | [] =>
      averageOfVectors vectors
      = Throw (JsError "TypeError"
                 "Cannot read properties of undefined (reading 'length')")
  | first :: _ =>
      exists average,
        averageOfVectors vectors = Ok average /\
        length average = length first
  end.
Proof.
  destruct vectors as [|first rest]; [reflexivity|].
  eexists. split; [reflexivity|].
  by rewrite length_fmap, fold_addVector_length, length_replicate.
Qed.

Lemma addVector_take (acc vector : list T) :
  addVector acc (take (length acc) vector) = addVector acc vector.
Proof.
  unfold addVector. apply imap_ext. intros i val Hi.
  apply lookup_lt_Some in Hi. by rewrite lookup_take_lt.
Qed.

Lemma fold_addVector_take (vectors : list (list T)) :
  forall acc,
    fold_left addVector (take (length acc) <$> vectors) acc
    = fold_left addVector vectors acc.
Proof.
  induction vectors as [|v vectors IH]; intros acc; [reflexivity|].
  rewrite fmap_cons. cbn [fold_left]. rewrite addVector_take.
  rewrite <- (IH (addVector acc v)). by rewrite addVector_length.
Qed.

(** X6: components past the length of the first vector are never read:
    cutting every vector to that length leaves the average unchanged. *)
Theorem averageOfVectors_ignores_excess (first : list T)
    (rest : list (list T)) :
  averageOfVectors (first :: (take (length first) <$> rest))
  = averageOfVectors (first :: rest).
Proof.
  unfold averageOfVectors. cbn [fold_left length].
  rewrite length_fmap.
  pose proof (fold_addVector_take rest
                (addVector (replicate (length first) zero) first)) as Hfold.
  rewrite addVector_length, length_replicate in Hfold. by rewrite Hfold.
Qed.

Lemma fold_addVector_defined (i : nat) (vectors : list (list T)) :
  forall acc, i < length acc ->
              is_Some (fold_left addVector vectors acc !! i).
Proof.
  intros acc Hi. apply lookup_lt_is_Some.
  by rewrite fold_addVector_length.
Qed.

(** X7: a vector too short for component [i] does not make
    [averageOfVectors] fail: the running sum of that component is
    replaced by the not-a-number value ([NaN] on doubles) at that vector,
    whatever was summed before, and the later vectors are added to it. *)
Theorem averageOfVectors_short_vector (before after : list (list T))
    (short : list T) (i : nat) (col : list T) :
  match before ++ [short] with
  | first :: _ => i < length first
  | [] => False
  end ->
  short !! i = None ->
  Forall2 (fun v x => v !! i = Some x) after col ->
  exists average,
    averageOfVectors (before ++ [short] ++ after) = Ok average /\
    average !! i
    = Some (div (fold_left add col notANumber)
              (ofNat (length (before ++ [short] ++ after)))).
Proof.
  intros Hi Hshort Hcol.
  assert (exists first tail, before ++ [short] = first :: tail /\
                             i < length first)
    as (first & tail & Hsplit & Hlen).
  { destruct (before ++ [short]) as [|first tail]; [done | eauto]. }
  rewrite app_assoc, Hsplit.
  eexists. split; [reflexivity|].
  rewrite list_lookup_fmap, <- Hsplit. rewrite <- app_assoc.
  rewrite fold_left_app. cbn [app fold_left].
  destruct (fold_addVector_defined i before
              (replicate (length first) zero))
    as (a & Ha); [by rewrite length_replicate|].
  rewrite (fold_addVector_lookup i after col Hcol _ notANumber);
    [reflexivity|].
  unfold addVector at 1. rewrite list_lookup_imap, Ha. simpl.
  by rewrite Hshort.
Qed.

(** X8: [math.dot], and with it [cosineSimilarity], succeeds exactly on
    two vectors of one non-zero length; vectors of different lengths are
    refused with the two lengths in the message, two empty vectors with
    the message about empty vectors. *)
Theorem cosineSimilarity_guards (A B : list T) :
  (length A <> length B ->
   cosineSimilarity A B
   = Throw (JsError "RangeError"
              ("Vectors must have equal length (" +:+ pretty (length A)
               +:+ " != " +:+ pretty (length B) +:+ ")"))) /\
  (A = [] -> B = [] ->
   cosineSimilarity A B
   = Throw (JsError "RangeError"
              "Cannot calculate the dot product of empty vectors")) /\
  (isOk (cosineSimilarity A B) = true
   <-> length A = length B /\ A <> []).
Proof.
  unfold cosineSimilarity, dot.
  destruct (Nat.eqb_spec (length A) (length B)) as [Heq|Hne]; cbn [negb].
  - split; [done|]. split.
    + by intros -> ->.
    + destruct A as [|a A], B as [|b B]; try discriminate Heq; simpl.
      * split; [done | by intros [_ ?]].
      * split; [done | by intros _].
  - split; [done|]. split.
    + intros -> ->. by destruct Hne.
    + split; [done | by intros [? _]].
Qed.

End ScoringShapes.

Lemma averageOfVectors_short_vector_witness :
  exists average,
    averageOfVectors ([[1; 2]] ++ [[3]] ++ [[5; 6]])%float = Ok average /\
    average !! 1
    = Some (div (fold_left add [6%float] notANumber)
              (ofNat (length ([[1; 2]] ++ [[3]] ++ [[5; 6]])%float))).
Proof.
  apply (averageOfVectors_short_vector [[1; 2]]%float [[5; 6]]%float
           [3%float] 1 [6%float]).
  - simpl. lia.
  - reflexivity.
  - repeat constructor.
Defined.

Lemma cosineSimilarity_guards_witness :
  cosineSimilarity [1; 2]%float [1]%float
  = Throw (JsError "RangeError" "Vectors must have equal length (2 != 1)").
Proof.
  apply (cosineSimilarity_guards [1; 2]%float [1]%float). simpl. lia.
Defined.

(** ** The score on doubles *)

(** X9: the doubles do not keep the score within the [-1, 1] of the
    function's documentation: the vector [[1, 1, 1]] scores
    [1.0000000000000002] with itself, and [processTestCase] then records
    ERROR for the run instead of a score. *)
Theorem cosineSimilarity_exceeds_one :
  cosineSimilarity [1; 1; 1]%float [1; 1; 1]%float
  = Ok 0x1.0000000000001p+0%float /\
  outOfRange 0x1.0000000000001p+0%float = true /\
  status <$>
    store (processTestCase (Sample.steady [1; 1; 1]%float) Sample.greeting
             Sample.alice Sample.run1 Sample.emptyWorld).2
    !! ("run1", "tc1")
  = Some ERROR.
Proof. vm_compute. repeat split. Qed.

Lemma products_zip (A : list float) :
  forall B c,
    fold_left (fun c ab => add c (mul ab.1 ab.2)) (zip A B) c
    = fold_left (fun c ab => add c (mul ab.1 ab.2)) (zip B A) c.
Proof.
  induction A as [|a A IH]; intros [|b B] c; try reflexivity.
  cbn [zip zip_with fold_left fst snd add mul floatArith].
  rewrite (float_mul_comm a b). apply IH.
Qed.

Lemma dot_symmetric (A B : list float) :
  length A = length B -> dot A B = dot B A.
Proof.
  intros Hlen. destruct A as [|a A], B as [|b B]; try done.
  rewrite !dot_formula by (by injection Hlen). f_equal.
  cbn [mul floatArith]. rewrite (float_mul_comm a b). apply products_zip.
Qed.

(** X10: on doubles the score does not depend on the order of its two
    arguments, when they have one length. *)
Theorem cosineSimilarity_symmetric (A B : list float) :
  length A = length B ->
  cosineSimilarity A B = cosineSimilarity B A.
Proof.
  intros Hlen. unfold cosineSimilarity. rewrite (dot_symmetric A B Hlen).
  destruct (dot B A); [|reflexivity]. cbn [div mul floatArith].
  by rewrite (float_mul_comm (norm A)).
Qed.

(** X11: on doubles the score of a vector with its opposite is the exact
    opposite of its score with itself, whatever the components are,
    infinite ones and [NaN] included. *)
Theorem cosineSimilarity_odd (A : list float) :
  A <> [] ->
  exists s,
    cosineSimilarity A A = Ok s /\
    cosineSimilarity A (PrimFloat.opp <$> A) = Ok (- s)%float.
Proof.
  intros HA. eexists.
  split; [by apply cosineSimilarity_self | by apply cosineSimilarity_opposite].
Qed.

Lemma cosineSimilarity_symmetric_witness :
  cosineSimilarity [1; 2]%float [3; -1]%float
  = cosineSimilarity [3; -1]%float [1; 2]%float.
Proof.
  apply (cosineSimilarity_symmetric [1; 2]%float [3; -1]%float). reflexivity.
Defined.

Lemma cosineSimilarity_odd_witness :
  exists s,
    cosineSimilarity [0x1p+700; 3]%float [0x1p+700; 3]%float = Ok s /\
    cosineSimilarity [0x1p+700; 3]%float
      (PrimFloat.opp <$> [0x1p+700; 3]%float)
    = Ok (- s)%float.
Proof. apply (cosineSimilarity_odd [0x1p+700; 3]%float). discriminate. Defined.

(** ** What an evaluation costs and what it leaves alone *)

Lemma waitsMade_app (l1 l2 : list Event) :
  waitsMade (l1 ++ l2) = waitsMade l1 + waitsMade l2.
Proof. induction l1 as [|e l1 IH]; simpl; [reflexivity | rewrite IH; lia]. Qed.

Lemma waitsMade_attempts (call : Event) (d : float) (failures : nat) :
  isWait call = false -> waitsMade (attempts call d failures) = failures.
Proof.
  intros Hcall. induction failures as [|n IH]; simpl; rewrite Hcall.
  - reflexivity.
  - rewrite IH. lia.
Qed.

Lemma attempts_head (call : Event) (d : float) (failures : nat) :
  exists tail, attempts call d failures = call :: tail.
Proof. destruct failures; simpl; eauto. Qed.

Lemma waitsFive_attempts (call : Event) (failures : nat) :
  isWait call = false -> Forall waitsFive (attempts call 5 failures).
Proof.
  intros Hcall. apply Forall_attempts; unfold waitsFive; [|done].
  rewrite Hcall. discriminate.
Qed.

Section Budget.
Variable env : Environment.
Variables (prompt : PromptCandidate.t) (testCase : TestCase.t).
Variables (openaiModel embeddingsModelName : string).
Variables (temperature maxTokens : float).

(** A run of [runPromptTestCase] starts with a completion request and
    makes between one and twelve requests and at most nine waits, each
    of five seconds, and leaves the store alone. *)
Lemma runPromptTestCase_budget (w : World) :
  exists r ext tail,
    runPromptTestCase env prompt testCase openaiModel embeddingsModelName
      temperature maxTokens w
    = (r, {| store := store w; log := log w ++ ext |}) /\
    ext = CompletionCall (formatPrompt env prompt testCase) openaiModel
            temperature maxTokens :: tail /\
    1 <= callsMade ext <= 12 /\
    waitsMade ext <= 9 /\
    Forall waitsFive ext /\
    Forall (fun e => isStoreWrite e = false) ext.
Proof.
  unfold runPromptTestCase, bind, retryOnFailure, requestCompletion,
    requestEmbeddings.
  set (c := callsMade (log w)).
  set (call1 := CompletionCall (formatPrompt env prompt testCase) openaiModel
                  temperature maxTokens).
  destruct (retryLoop_request
              (fun n => getGptCompletion env n (formatPrompt env prompt testCase)
                          openaiModel temperature maxTokens)
              call1 OPENAI_WAIT_TIME_SECONDS eq_refl (OPENAI_MAX_RETRY - 1) w)
    as (f1 & Hf1 & _ & _ & ->).
  fold c. simpl in Hf1.
  destruct (attempts_head call1 OPENAI_WAIT_TIME_SECONDS f1) as (tail1 & Hhead).
  assert (forall (call : Event) (f : nat),
            isExternalCall call = true ->
            Forall (fun e => isStoreWrite e = false)
              (attempts call HUGGINGFACE_WAIT_TIME_SECONDS f)) as Hquiet.
  { intros call f Hcall. apply Forall_attempts; [by destruct call | done]. }
  destruct (getGptCompletion env (c + f1) _ _ _ _) as [completions|e].
  2:{ exists (Throw e), (attempts call1 OPENAI_WAIT_TIME_SECONDS f1), tail1.
      split; [reflexivity|]. split; [exact Hhead|].
      rewrite callsMade_attempts, waitsMade_attempts by done.
      repeat split; try lia; [by apply waitsFive_attempts | by apply Hquiet]. }
  set (w1 := {| store := store w; log := _ |}).
  set (call2 := EmbeddingCall completions embeddingsModelName).
  destruct (retryLoop_request
              (fun n => embedTexts env n completions embeddingsModelName)
              call2 HUGGINGFACE_WAIT_TIME_SECONDS eq_refl
              (HUGGINGFACE_MAX_RETRY - 1) w1)
    as (f2 & Hf2 & _ & _ & ->).
  simpl in Hf2. cbn [log store w1].
  destruct (embedTexts env (callsMade _ + f2) completions _)
    as [gptEmbeddings|e].
  2:{ exists (Throw e),
        (attempts call1 OPENAI_WAIT_TIME_SECONDS f1
         ++ attempts call2 HUGGINGFACE_WAIT_TIME_SECONDS f2),
        (tail1 ++ attempts call2 HUGGINGFACE_WAIT_TIME_SECONDS f2).
      rewrite <- app_assoc. split; [reflexivity|].
      split; [by rewrite Hhead|].
      rewrite callsMade_app, waitsMade_app, !callsMade_attempts,
        !waitsMade_attempts by done.
      repeat split; try lia; apply Forall_app; split;
        (by apply waitsFive_attempts) || (by apply Hquiet). }
  set (w2 := {| store := store w; log := _ |}).
  set (call3 := EmbeddingCall (TestCase.goodCompletions testCase)
                  embeddingsModelName).
  destruct (retryLoop_request
              (fun n => embedTexts env n (TestCase.goodCompletions testCase)
                          embeddingsModelName)
              call3 HUGGINGFACE_WAIT_TIME_SECONDS eq_refl
              (HUGGINGFACE_MAX_RETRY - 1) w2)
    as (f3 & Hf3 & _ & _ & ->).
  simpl in Hf3. cbn [log store w2].
  set (ext := attempts call1 OPENAI_WAIT_TIME_SECONDS f1
              ++ attempts call2 HUGGINGFACE_WAIT_TIME_SECONDS f2
              ++ attempts call3 HUGGINGFACE_WAIT_TIME_SECONDS f3).
  assert (((log w ++ attempts call1 OPENAI_WAIT_TIME_SECONDS f1)
           ++ attempts call2 HUGGINGFACE_WAIT_TIME_SECONDS f2)
          ++ attempts call3 HUGGINGFACE_WAIT_TIME_SECONDS f3
          = log w ++ ext) as ->
    by (unfold ext; by rewrite <- !app_assoc).
  assert (ext = call1 :: (tail1
                ++ attempts call2 HUGGINGFACE_WAIT_TIME_SECONDS f2
                ++ attempts call3 HUGGINGFACE_WAIT_TIME_SECONDS f3)
          /\ 1 <= callsMade ext <= 12 /\ waitsMade ext <= 9
          /\ Forall waitsFive ext
          /\ Forall (fun e => isStoreWrite e = false) ext) as Hext.
  { unfold ext. split; [by rewrite Hhead|].
    rewrite !callsMade_app, !waitsMade_app, !callsMade_attempts,
      !waitsMade_attempts by done.
    repeat split; try lia; repeat (apply Forall_app; split);
      (by apply waitsFive_attempts) || (by apply Hquiet). }
  destruct (embedTexts env _ (TestCase.goodCompletions testCase) _)
    as [goodEmbeddings|e].
  2:{ exists (Throw e), ext. eexists. split; [reflexivity | exact Hext]. }
  unfold lift, ret.
  destruct (score gptEmbeddings goodEmbeddings) as [s|e].
  - exists (Ok (completions, s)), ext. eexists.
    split; [reflexivity | exact Hext].
  - exists (Throw e), ext. eexists. split; [reflexivity | exact Hext].
Qed.

End Budget.

Section EvaluationCost.
Variable env : Environment.
Variables (prompt : PromptCandidate.t) (testCase : TestCase.t).
Variable promptTestResults : PromptTestResults.t.
Variables (testCaseId runId : string).
Hypothesis testCase_id : presentId (TestCase.id testCase) = Some testCaseId.
Hypothesis run_id :
  presentId (PromptTestResults.id promptTestResults) = Some runId.

Lemma processTestCase_world (w : World) :
  exists w' first last ext,
    processTestCase env prompt testCase promptTestResults w = (Ok tt, w') /\
    store w'
    = <[(runId, testCaseId) := last]>
        (<[(runId, testCaseId) := first]> (store w)) /\
    log w' = log w ++ ext /\
    1 <= callsMade ext <= 12 /\
    waitsMade ext <= 9 /\
    Forall waitsFive ext.
Proof.
  unfold processTestCase. rewrite testCase_id, run_id.
  unfold bind at 1, tryCatch, bind.
  change (updateTestCaseResultStatus runId testCaseId IN_PROGRESS None w)
    with (Ok tt, started runId testCaseId w).
  cbv beta iota.
  destruct (runPromptTestCase_budget env prompt testCase
              (PromptTestResults.llmModel promptTestResults)
              (PromptTestResults.embeddingsModel promptTestResults)
              (PromptTestResults.temperature promptTestResults)
              (PromptTestResults.maxTokens promptTestResults)
              (started runId testCaseId w))
    as (r & ext & tail & -> & _ & Hcalls & Hwaits & Hfive & _).
  assert (forall final,
            isExternalCall final = false -> isWait final = false ->
            let all := [StatusWrite runId testCaseId IN_PROGRESS None]
                         ++ ext ++ [final] in
            1 <= callsMade all <= 12 /\ waitsMade all <= 9 /\
            Forall waitsFive all) as Hall.
  { intros final Hcall Hwait all. unfold all.
    rewrite !callsMade_app, !waitsMade_app. simpl. rewrite Hcall, Hwait.
    repeat split; try lia.
    constructor; [by unfold waitsFive|].
    apply Forall_app. split; [exact Hfive|].
    repeat constructor. unfold waitsFive. by rewrite Hwait. }
  destruct r as [[completions s]|e]; cbn [fst snd].
  - destruct (outOfRange s); do 4 eexists;
      (split; [reflexivity|]); cbn [log store started snd
        updateTestCaseResultStatus saveTestCaseResult throw];
      (split; [reflexivity|]); rewrite <- !app_assoc;
      (split; [reflexivity|]); by apply Hall.
  - do 4 eexists. split; [reflexivity|].
    cbn [log store started snd updateTestCaseResultStatus].
    split; [reflexivity|]. rewrite <- !app_assoc.
    split; [reflexivity|]. by apply Hall.
Qed.

(** X12: with both identifiers present, one evaluation makes at least
    one and at most twelve requests to the two services and waits at
    most nine times, five seconds each time. *)
Theorem processTestCase_budget (w : World) :
  exists ext w',
    processTestCase env prompt testCase promptTestResults w = (Ok tt, w') /\
    log w' = log w ++ ext /\
    1 <= callsMade ext <= 12 /\
    waitsMade ext <= 9 /\
    Forall waitsFive ext.
Proof.
  destruct (processTestCase_world w)
    as (w' & first & last & ext & Hout & _ & Hlog & Hbudget).
  by exists ext, w'.
Qed.

(** X13: with both identifiers present, an evaluation changes the
    record of its own (run id, test case id) and no other: every other
    record of the store is as it was. *)
Theorem processTestCase_other_records (w : World) (run tc : string) :
  (run, tc) <> (runId, testCaseId) ->
  exists w',
    processTestCase env prompt testCase promptTestResults w = (Ok tt, w') /\
    store w' !! (run, tc) = store w !! (run, tc).
Proof.
  intros Hother.
  destruct (processTestCase_world w)
    as (w' & first & last & ext & Hout & Hstore & _).
  exists w'. split; [exact Hout|].
  by rewrite Hstore, !lookup_insert_ne.
Qed.

End EvaluationCost.

Lemma processTestCase_budget_witness :
  exists ext w',
    processTestCase (Sample.flaky 2 5) Sample.greeting Sample.alice
      Sample.run1 Sample.emptyWorld = (Ok tt, w') /\
    log w' = ext /\
    1 <= callsMade ext <= 12 /\
    waitsMade ext <= 9 /\
    Forall waitsFive ext.
Proof.
  apply (processTestCase_budget (Sample.flaky 2 5) Sample.greeting
           Sample.alice Sample.run1 "tc1" "run1" eq_refl eq_refl
           Sample.emptyWorld).
Defined.

Lemma processTestCase_other_records_witness :
  exists w',
    processTestCase (Sample.steady [3; 4]%float) Sample.greeting Sample.alice
      Sample.run1 Sample.emptyWorld = (Ok tt, w') /\
    store w' !! ("run1", "tc2") = None.
Proof.
  apply (processTestCase_other_records (Sample.steady [3; 4]%float)
           Sample.greeting Sample.alice Sample.run1 "tc1" "run1"
           eq_refl eq_refl Sample.emptyWorld "run1" "tc2").
  discriminate.
Defined.

(** ** When the services answer at once *)

Section FirstTry.
Variable env : Environment.
Variables (prompt : PromptCandidate.t) (testCase : TestCase.t).
Variables (openaiModel embeddingsModelName : string).
Variables (temperature maxTokens : float).

Lemma runPromptTestCase_first_try (w : World) (completions : list string)
    (gptEmbeddings goodEmbeddings : list (list float)) :
  getGptCompletion env (callsMade (log w)) (formatPrompt env prompt testCase)
    openaiModel temperature maxTokens = Ok completions ->
  embedTexts env (callsMade (log w) + 1) completions embeddingsModelName
  = Ok gptEmbeddings ->
  embedTexts env (callsMade (log w) + 2) (TestCase.goodCompletions testCase)
    embeddingsModelName = Ok goodEmbeddings ->
  runPromptTestCase env prompt testCase openaiModel embeddingsModelName
    temperature maxTokens w
  = (match score gptEmbeddings goodEmbeddings with
     | Ok s => Ok (completions, s)
     | Throw e => Throw e
     end,
     {| store := store w;
        log := log w
          ++ [CompletionCall (formatPrompt env prompt testCase) openaiModel
                temperature maxTokens;
              EmbeddingCall completions embeddingsModelName;
              EmbeddingCall (TestCase.goodCompletions testCase)
                embeddingsModelName] |}).
Proof.
  intros Hgpt Hemb Hgood.
  unfold runPromptTestCase, bind, requestCompletion, requestEmbeddings.
  rewrite (retryOnFailure_request _ _ _ OPENAI_MAX_RETRY 0 (callsMade (log w)))
    by (try done; try (unfold OPENAI_MAX_RETRY; lia);
        intros; rewrite Nat.add_0_r, Hgpt; done).
  rewrite Nat.add_0_r, Hgpt.
  rewrite (retryOnFailure_request _ _ _ HUGGINGFACE_MAX_RETRY 0
             (callsMade (log w) + 1))
    by (try done; try (unfold HUGGINGFACE_MAX_RETRY; lia);
        try (simpl; rewrite callsMade_app; reflexivity);
        intros; rewrite Nat.add_0_r, Hemb; done).
  rewrite Nat.add_0_r, Hemb.
  rewrite (retryOnFailure_request _ _ _ HUGGINGFACE_MAX_RETRY 0
             (callsMade (log w) + 2))
    by (try done; try (unfold HUGGINGFACE_MAX_RETRY; lia);
        try (simpl; rewrite !callsMade_app; simpl; lia);
        intros; rewrite Nat.add_0_r, Hgood; done).
  rewrite Nat.add_0_r, Hgood. unfold lift, ret. simpl.
  rewrite <- !app_assoc.
  by destruct (score gptEmbeddings goodEmbeddings).
Qed.

End FirstTry.

Section FirstTryEvaluation.
Variable env : Environment.
Variables (prompt : PromptCandidate.t) (testCase : TestCase.t).
Variable promptTestResults : PromptTestResults.t.
Variables (testCaseId runId : string).
Variable w : World.
Variables (completions : list string).
Variables (gptEmbeddings goodEmbeddings : list (list float)).
Hypothesis testCase_id : presentId (TestCase.id testCase) = Some testCaseId.
Hypothesis run_id :
  presentId (PromptTestResults.id promptTestResults) = Some runId.
Hypothesis completion_answer :
  getGptCompletion env (callsMade (log w)) (formatPrompt env prompt testCase)
    (PromptTestResults.llmModel promptTestResults)
    (PromptTestResults.temperature promptTestResults)
    (PromptTestResults.maxTokens promptTestResults) = Ok completions.
Hypothesis embedding_answer :
  embedTexts env (callsMade (log w) + 1) completions
    (PromptTestResults.embeddingsModel promptTestResults) = Ok gptEmbeddings.
Hypothesis reference_answer :
  embedTexts env (callsMade (log w) + 2) (TestCase.goodCompletions testCase)
    (PromptTestResults.embeddingsModel promptTestResults) = Ok goodEmbeddings.

Local Abbreviation calls :=
  [ CompletionCall (formatPrompt env prompt testCase)
      (PromptTestResults.llmModel promptTestResults)
      (PromptTestResults.temperature promptTestResults)
      (PromptTestResults.maxTokens promptTestResults);
    EmbeddingCall completions
      (PromptTestResults.embeddingsModel promptTestResults);
    EmbeddingCall (TestCase.goodCompletions testCase)
      (PromptTestResults.embeddingsModel promptTestResults) ].

Lemma processTestCase_first_try :
  exists w',
    processTestCase env prompt testCase promptTestResults w = (Ok tt, w') /\
    let final :=
      terminalWrite env runId testCaseId
        (match score gptEmbeddings goodEmbeddings with
         | Ok s => Ok (completions, s)
         | Throw e => Throw e
         end) in
    log w' = log w ++ [StatusWrite runId testCaseId IN_PROGRESS None]
               ++ calls ++ [final] /\
    store w' !! (runId, testCaseId) = persisted final.
Proof.
  unfold processTestCase. rewrite testCase_id, run_id.
  unfold bind at 1, tryCatch, bind.
  change (updateTestCaseResultStatus runId testCaseId IN_PROGRESS None w)
    with (Ok tt, started runId testCaseId w).
  cbv beta iota.
  assert (callsMade (log (started runId testCaseId w)) = callsMade (log w))
    as Hcalls by (simpl; rewrite callsMade_app; simpl; lia).
  rewrite (runPromptTestCase_first_try env prompt testCase _ _ _ _
             (started runId testCaseId w) completions gptEmbeddings
             goodEmbeddings) by (by rewrite Hcalls).
  destruct (score gptEmbeddings goodEmbeddings) as [s|e];
    cbn [fst snd terminalWrite].
  - destruct (outOfRange s); eexists; (split; [reflexivity|]);
      cbn [log store started snd updateTestCaseResultStatus
           saveTestCaseResult throw];
      rewrite lookup_insert_eq, <- !app_assoc; by split.
  - eexists. split; [reflexivity|].
    cbn [log store started snd updateTestCaseResultStatus].
    rewrite lookup_insert_eq, <- !app_assoc. by split.
Qed.

(** X14: when the completion service and the embedding service answer
    at the first attempt and the score of the two averaged embedding
    sets passes the range check, the evaluation consists of the
    [IN_PROGRESS] write, exactly three requests with no wait, and the
    saving of that score with the completions; the record ends as
    [DONE] with both. *)
Theorem processTestCase_first_try_done (s : float) :
  score gptEmbeddings goodEmbeddings = Ok s ->
  outOfRange s = false ->
  exists w',
    processTestCase env prompt testCase promptTestResults w = (Ok tt, w') /\
    log w' = log w ++ [StatusWrite runId testCaseId IN_PROGRESS None]
               ++ calls ++ [ResultSave runId testCaseId s completions] /\
    store w' !! (runId, testCaseId)
    = Some {| status := DONE; errorMessage := None;
              cosineSimilarityScore := Some s;
              llmCompletions := Some completions |}.
Proof.
  intros Hscore Hrange.
  destruct processTestCase_first_try as (w' & Hout & Hlog & Hstore).
  rewrite Hscore in Hlog, Hstore. cbn [terminalWrite] in Hlog, Hstore.
  rewrite Hrange in Hlog, Hstore. by exists w'.
Qed.

(** X15: when the embedding service returns no vector for the
    completions (as for an empty list of completions), the reference
    completions are still sent for embedding, and only then does the
    averaging fail: the record ends as [ERROR] with the [TypeError] of
    reading the length of a missing first vector. *)
Theorem processTestCase_no_embeddings :
  gptEmbeddings = [] ->
  exists w',
    processTestCase env prompt testCase promptTestResults w = (Ok tt, w') /\
    log w' = log w ++ [StatusWrite runId testCaseId IN_PROGRESS None]
               ++ calls
               ++ [StatusWrite runId testCaseId ERROR
                     (Some "TypeError: Cannot read properties of undefined (reading 'length')")] /\
    store w' !! (runId, testCaseId)
    = Some {| status := ERROR;
              errorMessage :=
                Some "TypeError: Cannot read properties of undefined (reading 'length')";
              cosineSimilarityScore := None; llmCompletions := None |}.
Proof.
  intros Hnone.
  destruct processTestCase_first_try as (w' & Hout & Hlog & Hstore).
  rewrite Hnone in Hlog, Hstore. by exists w'.
Qed.

End FirstTryEvaluation.

Lemma processTestCase_first_try_done_witness :
  exists w',
    processTestCase (Sample.steady [3; 4]%float) Sample.greeting Sample.alice
      Sample.run1 Sample.emptyWorld = (Ok tt, w') /\
    log w'
    = [ StatusWrite "run1" "tc1" IN_PROGRESS None;
        CompletionCall "Hi Alice, age 5: water" "gpt" 1 50;
        EmbeddingCall ["I need water"] "emb";
        EmbeddingCall ["I want water"] "emb";
        ResultSave "run1" "tc1" 1 ["I need water"] ] /\
    store w' !! ("run1", "tc1")
    = Some {| status := DONE; errorMessage := None;
              cosineSimilarityScore := Some 1%float;
              llmCompletions := Some ["I need water"] |}.
Proof.
  apply (processTestCase_first_try_done (Sample.steady [3; 4]%float)
           Sample.greeting Sample.alice Sample.run1 "tc1" "run1"
           Sample.emptyWorld ["I need water"] [[3; 4]%float] [[3; 4]%float]
           eq_refl eq_refl eq_refl eq_refl eq_refl 1%float);
    reflexivity.
Defined.

Lemma processTestCase_no_embeddings_witness :
  exists w',
    processTestCase mute Sample.greeting Sample.alice Sample.run1
      Sample.emptyWorld = (Ok tt, w') /\
    log w'
    = [ StatusWrite "run1" "tc1" IN_PROGRESS None;
        CompletionCall "Hi Alice, age 5: water" "gpt" 1 50;
        EmbeddingCall [] "emb";
        EmbeddingCall ["I want water"] "emb";
        StatusWrite "run1" "tc1" ERROR
          (Some "TypeError: Cannot read properties of undefined (reading 'length')") ] /\
    store w' !! ("run1", "tc1")
    = Some {| status := ERROR;
              errorMessage :=
                Some "TypeError: Cannot read properties of undefined (reading 'length')";
              cosineSimilarityScore := None; llmCompletions := None |}.
Proof.
  apply (processTestCase_no_embeddings mute Sample.greeting Sample.alice
           Sample.run1 "tc1" "run1" Sample.emptyWorld [] []
           [[3; 4]%float] eq_refl eq_refl eq_refl eq_refl eq_refl eq_refl).
Defined.

Lemma averageOfVectors_length {T : Type} `{Arith T} (first : list T)
    (rest : list (list T)) :
  exists average,
    averageOfVectors (first :: rest) = Ok average /\
    length average = length first.
Proof.
  eexists. split; [reflexivity|].
  by rewrite length_fmap, fold_addVector_length, length_replicate.
Qed.

Lemma score_dimension_mismatch (g0 r0 : list float)
    (gs rs : list (list float)) :
  length g0 <> length r0 ->
  score (g0 :: gs) (r0 :: rs)
  = Throw (JsError "RangeError"
             ("Vectors must have equal length (" +:+ pretty (length g0)
              +:+ " != " +:+ pretty (length r0) +:+ ")")).
Proof.
  intros Hne. unfold score.
  destruct (averageOfVectors_length g0 gs) as (a & -> & Ha).
  destruct (averageOfVectors_length r0 rs) as (b & -> & Hb).
  unfold cosineSimilarity, dot. rewrite Ha, Hb.
  by destruct (Nat.eqb_spec (length g0) (length r0)).
Qed.

(** X16: when the two embedding requests are answered at once with
    vectors of different dimensions, the evaluation ends as [ERROR] with
    the [RangeError] of [math.dot], which names the two dimensions; the
    dimensions compared are those of the first vector of each set. *)
Theorem processTestCase_dimension_mismatch (env : Environment)
    (prompt : PromptCandidate.t) (testCase : TestCase.t)
    (promptTestResults : PromptTestResults.t) (testCaseId runId : string)
    (w : World) (completions : list string) (g0 r0 : list float)
    (gs rs : list (list float)) :
  presentId (TestCase.id testCase) = Some testCaseId ->
  presentId (PromptTestResults.id promptTestResults) = Some runId ->
  getGptCompletion env (callsMade (log w)) (formatPrompt env prompt testCase)
    (PromptTestResults.llmModel promptTestResults)
    (PromptTestResults.temperature promptTestResults)
    (PromptTestResults.maxTokens promptTestResults) = Ok completions ->
  embedTexts env (callsMade (log w) + 1) completions
    (PromptTestResults.embeddingsModel promptTestResults) = Ok (g0 :: gs) ->
  embedTexts env (callsMade (log w) + 2) (TestCase.goodCompletions testCase)
    (PromptTestResults.embeddingsModel promptTestResults) = Ok (r0 :: rs) ->
  length g0 <> length r0 ->
  exists w',
    processTestCase env prompt testCase promptTestResults w = (Ok tt, w') /\
    store w' !! (runId, testCaseId)
    = Some {| status := ERROR;
              errorMessage :=
                Some ("RangeError: Vectors must have equal length ("
                      +:+ pretty (length g0) +:+ " != "
                      +:+ pretty (length r0) +:+ ")");
              cosineSimilarityScore := None; llmCompletions := None |}.
Proof.
  intros Htc Hrun Hgpt Hemb Hgood Hne.
  destruct (processTestCase_first_try env prompt testCase promptTestResults
              testCaseId runId w completions (g0 :: gs) (r0 :: rs)
              Htc Hrun Hgpt Hemb Hgood) as (w' & Hout & _ & Hstore).
  rewrite (score_dimension_mismatch g0 r0 gs rs Hne) in Hstore.
  by exists w'.
Qed.

Lemma processTestCase_dimension_mismatch_witness :
  exists w',
    processTestCase uneven Sample.greeting Sample.alice Sample.run1
      Sample.emptyWorld = (Ok tt, w') /\
    store w' !! ("run1", "tc1")
    = Some {| status := ERROR;
              errorMessage :=
                Some "RangeError: Vectors must have equal length (2 != 1)";
              cosineSimilarityScore := None; llmCompletions := None |}.
Proof.
  apply (processTestCase_dimension_mismatch uneven Sample.greeting
           Sample.alice Sample.run1 "tc1" "run1" Sample.emptyWorld
           ["I need water"] [1; 2]%float [1]%float [] []
           eq_refl eq_refl eq_refl eq_refl eq_refl).
  simpl. lia.
Defined.

(** X17: which precondition error is thrown: a test case whose
    identifier is absent or the empty string gives "Test case id is
    missing" whatever the run record is; a test case with a non-empty
    identifier and a run record whose identifier is absent or empty gives
    "Prompt test results id is missing". In both cases the world is left
    as it was. *)
Theorem processTestCase_which_id (env : Environment)
    (prompt : PromptCandidate.t) (testCase : TestCase.t)
    (promptTestResults : PromptTestResults.t) (w : World) :
  (TestCase.id testCase = None \/ TestCase.id testCase = Some "" ->
   processTestCase env prompt testCase promptTestResults w
   = (Throw (JsError "Error" "Test case id is missing"), w)) /\
  (forall id,
     TestCase.id testCase = Some id -> id <> "" ->
     PromptTestResults.id promptTestResults = None \/
     PromptTestResults.id promptTestResults = Some "" ->
     processTestCase env prompt testCase promptTestResults w
     = (Throw (JsError "Error" "Prompt test results id is missing"), w)).
Proof.
  unfold processTestCase. split.
  - intros Hmissing. apply presentId_None in Hmissing. by rewrite Hmissing.
  - intros id Hid Hne Hmissing. apply presentId_None in Hmissing.
    rewrite Hid, Hmissing. simpl.
    by destruct (String.eqb_spec id "").
Qed.

Lemma processTestCase_which_id_witness :
  processTestCase (Sample.steady [3; 4]%float) Sample.greeting
    (Sample.withId (Some "") Sample.alice) Sample.run1 Sample.emptyWorld
  = (Throw (JsError "Error" "Test case id is missing"), Sample.emptyWorld).
Proof.
  apply (processTestCase_which_id (Sample.steady [3; 4]%float)
           Sample.greeting (Sample.withId (Some "") Sample.alice) Sample.run1
           Sample.emptyWorld).
  right. reflexivity.
Defined.

(** ** What the guard accepts *)

Lemma get_truthy (c : Value) (key : string) :
  toBoolean c = true -> get c key = Ok (field c key).
Proof. by destruct c. Qed.

Ltac guard_simpl H :=
  repeat (cbn [Js.and andb forallb readPath]; rewrite ?H).

Ltac guard_step x H :=
  destruct (toBoolean x) eqn:H;
  [ rewrite ?(get_truthy x) by exact H; guard_simpl H
  | guard_simpl H; eexists; split; [reflexivity | by rewrite ?H] ].

(** The chain of the guard, operand by operand: it never reads from a
    falsy value, and evaluates to the first falsy operand or to the last
    one. *)
Lemma isTestCase_reads (v : Value) :
  exists r,
    isTestCase v = Ok r /\
    toBoolean r = forallb (truthyAt v) guardReads /\
    (toBoolean r = true -> r = field v "goodCompletions").
Proof.
  unfold isTestCase, guardReads, get2, truthyAt.
  cbn [forallb readPath].
  guard_step v Hv.
  guard_step (field v "context") Hcontext.
  guard_step (field (field v "context") "tone") Htone.
  guard_step (field (field v "context") "setting") Hsetting.
  guard_step (field (field v "context") "conversationType") Hconversation.
  guard_step (field v "bio") Hbio.
  guard_step (field (field v "bio") "name") Hname.
  guard_step (field (field v "bio") "age") Hage.
  guard_step (field (field v "bio") "aboutMe") Habout.
  guard_step (field v "utterance") Hutterance.
  eexists. split; [reflexivity|]. by rewrite andb_true_r.
Qed.

(** X18: [isTestCase] throws on no value at all, [undefined] and [null]
    included; its result is truthy exactly when the value itself, its
    [context], [bio], [utterance] and [goodCompletions] and the three
    fields of [context] and of [bio] can all be read and are all truthy,
    and it is then the [goodCompletions] property itself, of whatever
    type that is. *)
Theorem isTestCase_accepts (v : Value) :
  exists r,
    isTestCase v = Ok r /\
    toBoolean r = forallb (truthyAt v) guardReads /\
    (toBoolean r = true -> r = field v "goodCompletions").
Proof. apply isTestCase_reads. Qed.

(** X19: anything that is not an object is rejected: the guard
    evaluates to a falsy value on it. *)
Theorem isTestCase_rejects_non_objects (v : Value) :
  isObject v = false ->
  exists r, isTestCase v = Ok r /\ toBoolean r = false.
Proof.
  intros Hobject.
  destruct (isTestCase_reads v) as (r & Hr & Htruthy & _).
  exists r. split; [exact Hr|]. rewrite Htruthy.
  unfold guardReads, truthyAt. cbn [forallb readPath].
  destruct v; try discriminate Hobject; cbn [get toBoolean andb];
    by rewrite ?andb_false_r.
Qed.

Lemma isTestCase_rejects_non_objects_witness :
  exists r, isTestCase (Array []) = Ok r /\ toBoolean r = false.
Proof. apply (isTestCase_rejects_non_objects (Array [])). reflexivity. Defined.

(** X20: on a well-typed test case the guard's result is truthy exactly
    when the age is neither zero nor [NaN] and none of the six strings is
    empty; the reference completions play no part, and when the result is
    truthy it is their array. *)
Theorem isTestCase_typed (testCase : TestCase.t) :
  exists r,
    isTestCase (toValue testCase) = Ok r /\
    (toBoolean r = true <->
     toBoolean (Number (Bio.age (TestCase.bio testCase))) = true /\
     Context.tone (TestCase.context testCase) <> "" /\
     Context.setting (TestCase.context testCase) <> "" /\
     Context.conversationType (TestCase.context testCase) <> "" /\
     Bio.name (TestCase.bio testCase) <> "" /\
     Bio.aboutMe (TestCase.bio testCase) <> "" /\
     TestCase.utterance testCase <> "") /\
    (toBoolean r = true ->
     r = Array (Str <$> TestCase.goodCompletions testCase)).
Proof.
  destruct (isTestCase_reads (toValue testCase)) as (r & Hr & Htruthy & Hlast).
  exists r. split; [exact Hr|].
  destruct testCase as [id [tone setting conversationType] [name age aboutMe]
                          utterance goodCompletions].
  cbn [TestCase.bio TestCase.context TestCase.utterance
       TestCase.goodCompletions Bio.age Bio.name Bio.aboutMe Context.tone
       Context.setting Context.conversationType].
  assert (forall s : string, negb (String.eqb s "") = true <-> s <> "")
    as Hnonempty.
  { intros s. destruct (String.eqb_spec s ""); simpl; split; done. }
  split.
  - rewrite Htruthy. unfold guardReads, truthyAt.
    destruct id; cbn; rewrite ?andb_true_r, !andb_true_iff, !Hnonempty;
      tauto.
  - intros Hok. rewrite (Hlast Hok). by destruct id.
Qed.

Lemma isTestCase_accepts_witness :
  isTestCase (toValue Sample.alice)
  = Ok (field (toValue Sample.alice) "goodCompletions").
Proof.
  destruct (isTestCase_accepts (toValue Sample.alice))
    as (r & Hr & Htruthy & Hlast).
  rewrite Hr. f_equal. apply Hlast. rewrite Htruthy. reflexivity.
Defined.

Lemma isTestCase_typed_witness :
  isTestCase (toValue Sample.alice) = Ok (Array [Str "I want water"]).
Proof.
  destruct (isTestCase_typed Sample.alice) as (r & Hr & Hiff & Hlast).
  rewrite Hr. f_equal. apply Hlast, Hiff.
  repeat split; (reflexivity || discriminate).
Defined.
